(** * auth-manager-svc: the token vault, its crypto primitive, the state-token
    codec and the OAuth flows, embedded from [app/] and verified.

    Layout: Part I embeds the program (exceptions, byte strings, the
    encryption service, the repository and vault service, the state-token
    service, the guards and the endpoint flows); Part II defines the
    vocabulary of the statements and the stand-ins used to run the model;
    Part III states and proves the properties; Part IV proves further
    properties of the embedded code. *)

From Stdlib Require Import ZArith NArith List String Ascii Lia Bool.
From Stdlib.Strings Require Import Byte.
From stdpp Require Import base option list strings gmap.

Local Open Scope string_scope.
Local Open Scope list_scope.

(* ===================================================================== *)
(** * Part I. The embedding                                               *)
(* ===================================================================== *)

(** ** Exceptions ([app/core/exceptions.py] and the built-in ones raised
    along the modelled paths) *)

(** The raise sites of the built-in [ValueError] that the modelled code can
    reach; each constructor stands for one message. *)
Inductive value_error : Type :=
  | KeyNot64Chars        (* "Encryption key must be 64 hex characters (32 bytes)" *)
  | KeyNotHex            (* "Encryption key must be valid hex string: ..." *)
  | IvNotHex             (* "IV must be valid hex string: ..." *)
  | TokenOrIvNotHex      (* "Encrypted token and IV must be valid hex strings: ..." *)
  | IvNot16Bytes         (* "IV must be 16 bytes (32 hex characters)" *)
  | CannotUnpadEmpty     (* "Cannot unpad empty data" *)
  | InvalidPaddingLength (* "Invalid padding length" *)
  | InvalidPaddingBytes  (* "Invalid padding bytes" *)
  | NonHexDigit          (* bytes.fromhex: "non-hexadecimal number found ..." *)
  | InvalidKeySize       (* cryptography: "Invalid key size (...) for AES." *)
  | NotBlockMultiple     (* cryptography: "The length of the provided data is
                            not a multiple of the block length." *)
  | BadlyFormedUUID.     (* uuid.UUID: "badly formed hexadecimal UUID string" *)

Inductive exn : Type :=
  (* built-in and library exceptions *)
  | ValueError (why : value_error)
  | TypeError (message : string)
  | IndexError
  | UnicodeEncodeError
  | UnicodeDecodeError
  | MultipleResultsFound          (* sqlalchemy.exc *)
  | IntegrityError                (* sqlalchemy.exc: primary key violated *)
  | PydanticValidationError       (* pydantic_core.ValidationError *)
  (* app.core.exceptions *)
  | AuthManagerError (message code : string)
  | KeycloakError (message : string) (status_code : Z)
  | InvalidStateTokenError (message : string)
  | TokenNotFoundError (message : string)
  | UnauthorizedError (message : string)
  | TokenNotActiveError (message : string)
  | ValidationError (message : string)
  | InvalidRequestError (message : string).

(** [AuthManagerError.code], as each subclass's [__init__] sets it; [None]
    for exceptions outside the [AuthManagerError] hierarchy. *)
Definition code (e : exn) : option string :=
  match e with
  | AuthManagerError _ c => Some c
  | KeycloakError _ _ => Some "keycloak_error"
  | InvalidStateTokenError _ => Some "invalid_state_token"
  | TokenNotFoundError _ => Some "token_not_found"
  | UnauthorizedError _ => Some "unauthorized"
  | TokenNotActiveError _ => Some "token_not_active"
  | ValidationError _ => Some "validation_error"
  | InvalidRequestError _ => Some "invalid_request"
  | _ => None
  end.

Definition is_auth_manager_error (e : exn) : bool :=
  match code e with Some _ => true | None => false end.

(** A computation that returns or raises. *)
Inductive result (A : Type) : Type :=
  | Ok (a : A)
  | Raise (e : exn).
Arguments Ok {A} a.
Arguments Raise {A} e.

#[global] Instance result_ret : MRet result := fun A a => Ok a.
#[global] Instance result_bind : MBind result := fun A B f m =>
  match m with
  | Ok a => f a
  | Raise e => Raise e
  end.

(** ** Byte strings: [bytes.hex], [bytes.fromhex], [str.encode], [bytes.decode] *)

Local Open Scope N_scope.

Definition bN (n : N) : byte := default x00 (Byte.of_N n).

Definition hex_digit (n : N) : ascii :=
  match n with
  | 0 => "0" | 1 => "1" | 2 => "2" | 3 => "3" | 4 => "4" | 5 => "5"
  | 6 => "6" | 7 => "7" | 8 => "8" | 9 => "9" | 10 => "a" | 11 => "b"
  | 12 => "c" | 13 => "d" | 14 => "e" | _ => "f"
  end%char.

(** [bytes.hex()]: two lowercase digits per byte. *)
Fixpoint hex (bs : list byte) : string :=
  match bs with
  | [] => EmptyString
  | b :: bs' =>
      String (hex_digit (Byte.to_N b / 16)) (String (hex_digit (Byte.to_N b mod 16)) (hex bs'))
  end.

Definition hex_value (c : ascii) : option N :=
  let n := N_of_ascii c in
  if (48 <=? n) && (n <=? 57) then Some (n - 48)
  else if (97 <=? n) && (n <=? 102) then Some (n - 87)
  else if (65 <=? n) && (n <=? 70) then Some (n - 55)
  else None.

(** ASCII whitespace: space, \t, \n, \v, \f, \r. *)
Definition Py_ISSPACE (c : ascii) : bool :=
  let n := N_of_ascii c in (n =? 32) || ((9 <=? n) && (n <=? 13)).

(** [bytes.fromhex(s)]: two hexadecimal digits per byte, ASCII whitespace
    between bytes skipped, anything else a [ValueError]. *)
Fixpoint fromhex (s : string) : result (list byte) :=
  match s with
  | EmptyString => Ok []
  | String c s' =>
      if Py_ISSPACE c then fromhex s'
      else
        match hex_value c, s' with
        | Some hi, String d s'' =>
            match hex_value d with
            | Some lo => bs ← fromhex s''; Ok (bN (16 * hi + lo) :: bs)
            | None => Raise (ValueError NonHexDigit)
            end
        | _, _ => Raise (ValueError NonHexDigit)
        end
  end.

(** A Python [str] is a sequence of code points. Text that the program only
    compares, prints or parses as hexadecimal is embedded as [string]; the
    plaintext of a token, which goes through the UTF-8 codec, as [ustr]. *)
Definition ustr : Type := list N.

Definition is_surrogate (c : N) : bool := (0xD800 <=? c) && (c <=? 0xDFFF).

Definition utf8_encode_char (c : N) : result (list byte) :=
  if c <? 0x80 then Ok [bN c]
  else if c <? 0x800 then Ok [bN (0xC0 + c / 64); bN (0x80 + c mod 64)]
  else if c <? 0x10000 then
    if is_surrogate c then Raise UnicodeEncodeError
    else Ok [bN (0xE0 + c / 4096); bN (0x80 + (c / 64) mod 64); bN (0x80 + c mod 64)]
  else if c <? 0x110000 then
    Ok [bN (0xF0 + c / 262144); bN (0x80 + (c / 4096) mod 64);
        bN (0x80 + (c / 64) mod 64); bN (0x80 + c mod 64)]
  else Raise UnicodeEncodeError.

(** [str.encode()] (UTF-8, strict). *)
Fixpoint encode (s : ustr) : result (list byte) :=
  match s with
  | [] => Ok []
  | c :: s' => bs ← utf8_encode_char c; rest ← encode s'; Ok (bs ++ rest)
  end.

Definition is_cont (b : byte) : bool :=
  let n := Byte.to_N b in (0x80 <=? n) && (n <=? 0xBF).

Definition cont_bits (b : byte) : N := Byte.to_N b - 0x80.

(** [bytes.decode()] (UTF-8, strict): shortest form only, no surrogates,
    nothing above U+10FFFF. *)
Fixpoint decode (bs : list byte) : result ustr :=
  match bs with
  | [] => Ok []
  | b0 :: r0 =>
      let n0 := Byte.to_N b0 in
      if n0 <? 0x80 then cs ← decode r0; Ok (n0 :: cs)
      else if (0xC2 <=? n0) && (n0 <=? 0xDF) then
        match r0 with
        | b1 :: r1 =>
            if is_cont b1
            then cs ← decode r1; Ok (((n0 - 0xC0) * 64 + cont_bits b1) :: cs)
            else Raise UnicodeDecodeError
        | _ => Raise UnicodeDecodeError
        end
      else if (0xE0 <=? n0) && (n0 <=? 0xEF) then
        match r0 with
        | b1 :: b2 :: r2 =>
            let c := (n0 - 0xE0) * 4096 + cont_bits b1 * 64 + cont_bits b2 in
            if is_cont b1 && is_cont b2 && (0x800 <=? c) && negb (is_surrogate c)
            then cs ← decode r2; Ok (c :: cs)
            else Raise UnicodeDecodeError
        | _ => Raise UnicodeDecodeError
        end
      else if (0xF0 <=? n0) && (n0 <=? 0xF4) then
        match r0 with
        | b1 :: b2 :: b3 :: r3 =>
            let c := (n0 - 0xF0) * 262144 + cont_bits b1 * 4096
                     + cont_bits b2 * 64 + cont_bits b3 in
            if is_cont b1 && is_cont b2 && is_cont b3
               && (0x10000 <=? c) && (c <? 0x110000)
            then cs ← decode r3; Ok (c :: cs)
            else Raise UnicodeDecodeError
        | _ => Raise UnicodeDecodeError
        end
      else Raise UnicodeDecodeError
  end.

(** Code points of an ASCII literal, for writing tokens in examples. *)
Fixpoint ustr_of_string (s : string) : ustr :=
  match s with
  | EmptyString => []
  | String c s' => N_of_ascii c :: ustr_of_string s'
  end.

Local Close Scope N_scope.

(** ** The cipher backend ([cryptography.hazmat]) and [hashlib]

    AES and SHA-256 are the libraries' own. The block function is taken
    through its interface: on a key of a legal size it maps 16-byte blocks to
    16-byte blocks and decryption undoes encryption. The CBC chaining, the
    padding and the text encodings around it are modelled in full. *)

Definition aes_key_size_ok (key : list byte) : bool :=
  (length key =? 16)%nat || (length key =? 24)%nat || (length key =? 32)%nat.

Class CryptoBackend : Type := {
  aes_encrypt_block : list byte -> list byte -> list byte;
  aes_decrypt_block : list byte -> list byte -> list byte;
  sha256 : list byte -> list byte;
  aes_encrypt_block_length : forall key b,
    aes_key_size_ok key = true -> length b = 16%nat ->
    length (aes_encrypt_block key b) = 16%nat;
  aes_decrypt_block_length : forall key b,
    aes_key_size_ok key = true -> length b = 16%nat ->
    length (aes_decrypt_block key b) = 16%nat;
  aes_decrypt_encrypt_block : forall key b,
    aes_key_size_ok key = true -> length b = 16%nat ->
    aes_decrypt_block key (aes_encrypt_block key b) = b
}.

Definition bxor (a b : byte) : byte :=
  bN (N.lxor (Byte.to_N a) (Byte.to_N b)).

Definition xor_bytes (a b : list byte) : list byte := zip_with bxor a b.

(** Consecutive 16-byte blocks of [data]; [fuel] bounds the number of blocks
    and [length data] always suffices. *)
Fixpoint blocks_fuel (fuel : nat) (data : list byte) : list (list byte) :=
  match fuel with
  | O => []
  | S fuel' =>
      match data with
      | [] => []
      | _ => take 16 data :: blocks_fuel fuel' (drop 16 data)
      end
  end.

Definition blocks (data : list byte) : list (list byte) :=
  blocks_fuel (length data) data.

Section Cipher.
Context `{CryptoBackend}.

(** CBC: each plaintext block is xored with the previous ciphertext block
    (the IV for the first) before the block function. *)
Fixpoint cbc_encrypt_blocks (key prev : list byte) (ps : list (list byte))
  : list (list byte) :=
  match ps with
  | [] => []
  | p :: ps' =>
      let c := aes_encrypt_block key (xor_bytes p prev) in
      c :: cbc_encrypt_blocks key c ps'
  end.

Fixpoint cbc_decrypt_blocks (key prev : list byte) (cs : list (list byte))
  : list (list byte) :=
  match cs with
  | [] => []
  | c :: cs' =>
      xor_bytes (aes_decrypt_block key c) prev :: cbc_decrypt_blocks key c cs'
  end.

(** [Cipher(algorithms.AES(key), modes.CBC(iv))], then
    [encryptor.update(data) + encryptor.finalize()]: [AES] rejects a key
    of the wrong size, [finalize] rejects data that is not whole blocks.
    Both callers have checked [len(iv) == 16] before. *)
Definition cbc_encrypt (key iv data : list byte) : result (list byte) :=
  if negb (aes_key_size_ok key) then Raise (ValueError InvalidKeySize)
  else if negb (length data mod 16 =? 0)%nat then Raise (ValueError NotBlockMultiple)
  else Ok (concat (cbc_encrypt_blocks key iv (blocks data))).

Definition cbc_decrypt (key iv data : list byte) : result (list byte) :=
  if negb (aes_key_size_ok key) then Raise (ValueError InvalidKeySize)
  else if negb (length data mod 16 =? 0)%nat then Raise (ValueError NotBlockMultiple)
  else Ok (concat (cbc_decrypt_blocks key iv (blocks data))).
End Cipher.

(** ** [app/services/encryption.py] *)

Record EncryptionService : Type := { key : list byte }.

(** [EncryptionService.__init__] *)
Definition EncryptionService_init (encryption_key : string) : result EncryptionService :=
  if negb (String.length encryption_key =? 64)%nat then Raise (ValueError KeyNot64Chars)
  else
    match fromhex encryption_key with
    | Ok k => Ok {| key := k |}
    | Raise _ => Raise (ValueError KeyNotHex)
    end.

(** [secrets.token_hex(n)]: the hexadecimal text of [n] bytes drawn from the
    system's random source, here the stream [rand]. *)
Definition token_hex (n : nat) (rand : nat -> byte) : string :=
  hex (map rand (seq 0 n)).

Definition generate_iv (rand : nat -> byte) : string := token_hex 16 rand.

(** [EncryptionService._pad] *)
Definition _pad (data : list byte) : list byte :=
  let padding_length := (16 - (length data mod 16))%nat in
  data ++ replicate padding_length (bN (N.of_nat padding_length)).

(** [data[-k]] for [k >= 1]: the [k]-th byte from the end, [IndexError]
    beyond the start. *)
Definition index_from_end (data : list byte) (k : nat) : result byte :=
  if (k <=? length data)%nat
  then match data !! (length data - k)%nat with
       | Some b => Ok b
       | None => Raise IndexError
       end
  else Raise IndexError.

(** The loop of [_unpad]: [for i in range(padding_length)], first failure
    raises. *)
Fixpoint check_padding (data : list byte) (padding_length : byte) (range : list nat)
  : result unit :=
  match range with
  | [] => Ok tt
  | i :: range' =>
      b ← index_from_end data (i + 1);
      if Byte.eqb b padding_length
      then check_padding data padding_length range'
      else Raise (ValueError InvalidPaddingBytes)
  end.

(** [EncryptionService._unpad] *)
Definition _unpad (data : list byte) : result (list byte) :=
  if (length data =? 0)%nat then Raise (ValueError CannotUnpadEmpty)
  else
    padding_length ← index_from_end data 1;
    let n := Byte.to_nat padding_length in
    if (16 <? n)%nat || (n =? 0)%nat then Raise (ValueError InvalidPaddingLength)
    else
      _ ← check_padding data padding_length (seq 0 n);
      Ok (take (length data - n) data).

Section Encryption.
Context `{CryptoBackend}.

(** [EncryptionService.encrypt_token] *)
Definition encrypt_token (self : EncryptionService) (token : ustr) (iv : string)
  : result string :=
  match fromhex iv with
  | Raise _ => Raise (ValueError IvNotHex)
  | Ok iv_bytes =>
      if negb (length iv_bytes =? 16)%nat then Raise (ValueError IvNot16Bytes)
      else if negb (aes_key_size_ok (key self)) then Raise (ValueError InvalidKeySize)
      else
        data ← encode token;
        encrypted ← cbc_encrypt (key self) iv_bytes (_pad data);
        Ok (hex encrypted)
  end.

(** [EncryptionService.decrypt_token] *)
Definition decrypt_token (self : EncryptionService) (encrypted_token iv : string)
  : result ustr :=
  match (iv_bytes ← fromhex iv; encrypted_bytes ← fromhex encrypted_token;
         Ok (iv_bytes, encrypted_bytes)) with
  | Raise _ => Raise (ValueError TokenOrIvNotHex)
  | Ok (iv_bytes, encrypted_bytes) =>
      if negb (length iv_bytes =? 16)%nat then Raise (ValueError IvNot16Bytes)
      else
        decrypted ← cbc_decrypt (key self) iv_bytes encrypted_bytes;
        unpadded ← _unpad decrypted;
        decode unpadded
  end.

(** [EncryptionService.hash_token] *)
Definition hash_token (token : ustr) : result string :=
  data ← encode token;
  Ok (hex (sha256 data)).
End Encryption.

(** ** [app/db/models.py], [app/models/domain.py] *)

(** A UUID is its 128-bit integer; parsing ([uuid.UUID(s)], which raises
    [ValueError] on a badly formed string) and printing ([str(u)]) are the
    standard library's. *)
Definition uuid : Type := N.

Class UuidLib : Type := {
  UUID : string -> result uuid;
  uuid_str : uuid -> string
}.

(** [UUID.version]: the version bits (76 to 79) mean something for the
    RFC 4122 variant only, which has bit 63 set and bit 62 clear. *)
Definition uuid_version (u : uuid) : option N :=
  if N.testbit u 63 && negb (N.testbit u 62)
  then Some (N.land (N.shiftr u 76) 15)
  else None.

(** pydantic's [UUID4]: a [UUID] whose [version] is 4. *)
Definition is_UUID4 (u : uuid) : bool :=
  match uuid_version u with
  | Some 4%N => true
  | _ => false
  end.

Inductive TokenType : Type := OFFLINE | REFRESH.

#[global] Instance TokenType_eq_dec : EqDecision TokenType.
Proof. solve_decision. Defined.

(** The JSON values that the program puts in a metadata bag or a token
    payload. *)
Inductive jval : Type :=
  | JStr (s : string)
  | JNum (z : Z)
  | JNull.

Definition jstr_opt (o : option string) : jval :=
  match o with Some s => JStr s | None => JNull end.

(** One row of [auth_vault], by the mapped attributes of the ORM class
    [AuthVault]. The column ["metadata"] is mapped under the attribute
    [token_metadata]; the class has no mapped attribute [metadata]. *)
Module AuthVault.
Record t : Type := mk {
  id : uuid;
  user_id : uuid;
  token_type : TokenType;
  encrypted_token : option string;
  iv : option string;
  token_hash : option string;
  token_metadata : option (gmap string jval);
  session_state_id : string;
  created_at : Z;
  updated_at : option Z
}.
End AuthVault.

(** The domain model [TokenVaultEntry]. *)
Module TokenVaultEntry.
Record t : Type := mk {
  id : uuid;
  user_id : uuid;
  token_type : TokenType;
  encrypted_token : option string;
  iv : option string;
  token_hash : option string;
  metadata : option (gmap string jval);
  session_state_id : string;
  created_at : Z;
  updated_at : option Z
}.
End TokenVaultEntry.

(** The table, in insertion order. *)
Abbreviation table := (list AuthVault.t).

(** What the attribute [metadata] of an [AuthVault] instance holds. On an
    instance that a query loaded it is the [MetaData] object of the
    declarative [Base], inherited by the class; on the instance that
    [create] built with the keyword [metadata] it is the value given,
    which the constructor set as a plain attribute. *)
Inductive metadata_attribute : Type :=
  | Base_metadata
  | plain_attribute (value : option (gmap string jval)).

(** [TokenVaultEntry.model_validate(entry)], with [from_attributes]: each
    field is read from the attribute of its name. [id] and [user_id] are
    declared [UUID4] and [metadata] an optional dictionary, which the
    [MetaData] object is not; one failing field fails the validation. *)
Definition model_validate (entry : AuthVault.t) (metadata : metadata_attribute)
  : result TokenVaultEntry.t :=
  match metadata with
  | plain_attribute value =>
      if is_UUID4 (AuthVault.id entry) && is_UUID4 (AuthVault.user_id entry)
      then Ok (TokenVaultEntry.mk (AuthVault.id entry) (AuthVault.user_id entry)
                 (AuthVault.token_type entry) (AuthVault.encrypted_token entry)
                 (AuthVault.iv entry) (AuthVault.token_hash entry) value
                 (AuthVault.session_state_id entry) (AuthVault.created_at entry)
                 (AuthVault.updated_at entry))
      else Raise PydanticValidationError
  | Base_metadata => Raise PydanticValidationError
  end.

(** ** [app/db/repositories/token_vault.py] *)

(** [Result.scalar_one_or_none()]: the single row, [None] for no row,
    [MultipleResultsFound] for more than one. *)
Definition scalar_one_or_none {A} (rows : list A) : result (option A) :=
  match rows with
  | [] => Ok None
  | [r] => Ok (Some r)
  | _ => Raise MultipleResultsFound
  end.

(** [.order_by(AuthVault.created_at.desc())] *)
Fixpoint insert_desc (r : AuthVault.t) (rows : table) : table :=
  match rows with
  | [] => [r]
  | x :: rows' =>
      if (AuthVault.created_at x <? AuthVault.created_at r)%Z
      then r :: x :: rows'
      else x :: insert_desc r rows'
  end.

Definition order_by_created_at_desc (rows : table) : table :=
  foldr insert_desc [] rows.

(** [if token_type: query = query.where(AuthVault.token_type == token_type)];
    both members of the enumeration are non-empty strings, hence true. *)
Definition where_token_type (token_type : option TokenType) (r : AuthVault.t) : bool :=
  match token_type with
  | Some t => bool_decide (AuthVault.token_type r = t)
  | None => true
  end.

(** The [UPDATE] of [upsert_refresh_token],
    [update(AuthVault).where(AuthVault.id == id).values(encrypted_token=...,
    iv=..., token_hash=..., session_state_id=..., metadata=...)], is
    SQLAlchemy's own: the key [metadata] is the name of the column but of
    no mapped attribute of [AuthVault], and what the library makes of it is
    not decided here. The statement is taken through its interface: the
    table, the id, the five values and the time of the update, to the table
    afterwards or an exception. *)
Class UpdateLib : Type := {
  execute_update :
    table -> uuid -> string -> string -> string -> string ->
    option (gmap string jval) -> Z -> result table
}.

Module TokenVaultRepository.

(** [TokenVaultEntry.model_validate(entry) if entry else None], on what a
    query loaded. *)
Definition validate_loaded (entry : option AuthVault.t)
  : result (option TokenVaultEntry.t) :=
  match entry with
  | Some entry => validated ← model_validate entry Base_metadata; Ok (Some validated)
  | None => Ok None
  end.

(** [create]: [new_id] is the [uuid.uuid4()] default of the primary key,
    [now] the server's [func.now()] for [created_at]; a primary key that
    is already taken violates the constraint at the flush. The keyword
    [metadata] of the constructor names no mapped attribute: the column
    stays NULL and the value lives on the instance, where the final
    [model_validate] reads it. When that validation fails the exception
    leaves the row to the rollback of the request. *)
Definition create (tbl : table) (new_id : uuid) (now : Z)
    (user_id : uuid) (token_type : TokenType) (encrypted_token iv token_hash : string)
    (session_state_id : string) (metadata : option (gmap string jval))
  : result (TokenVaultEntry.t * table) :=
  if existsb (fun r => N.eqb (AuthVault.id r) new_id) tbl then Raise IntegrityError
  else
    let entry := AuthVault.mk new_id user_id token_type (Some encrypted_token)
                   (Some iv) (Some token_hash) None session_state_id now None in
    validated ← model_validate entry (plain_attribute metadata);
    Ok (validated, tbl ++ [entry]).

Definition get_by_id (tbl : table) (token_id : uuid) : result (option TokenVaultEntry.t) :=
  entry ← scalar_one_or_none (filter (fun r => AuthVault.id r = token_id) tbl);
  validate_loaded entry.

Definition get_by_user_id (tbl : table) (user_id : uuid) (token_type : option TokenType)
  : result (option TokenVaultEntry.t) :=
  entry ← scalar_one_or_none
    (order_by_created_at_desc
       (filter (fun r => where_token_type token_type r = true)
          (filter (fun r => AuthVault.user_id r = user_id) tbl)));
  validate_loaded entry.

Definition get_by_session_state_id (tbl : table) (session_state_id : string)
    (token_type : option TokenType) : result (option TokenVaultEntry.t) :=
  entry ← scalar_one_or_none
    (filter (fun r => where_token_type token_type r = true)
       (filter (fun r => AuthVault.session_state_id r = session_state_id) tbl));
  validate_loaded entry.

(** [if exclude_id: query = query.where(AuthVault.id != exclude_id)]; a
    [UUID] object is always true, so the test is for [None] only. *)
Definition where_id_not (exclude_id : option uuid) (r : AuthVault.t) : bool :=
  match exclude_id with
  | Some x => negb (N.eqb (AuthVault.id r) x)
  | None => true
  end.

(** [[TokenVaultEntry.model_validate(e) for e in entries]] *)
Fixpoint validate_all (entries : list AuthVault.t) : result (list TokenVaultEntry.t) :=
  match entries with
  | [] => Ok []
  | e :: entries' =>
      validated ← model_validate e Base_metadata;
      rest ← validate_all entries';
      Ok (validated :: rest)
  end.

(** [get_all_by_session_state_id] *)
Definition get_all_by_session_state_id (tbl : table) (session_state_id : string)
    (exclude_id : option uuid) (token_type : option TokenType)
  : result (list TokenVaultEntry.t) :=
  validate_all
    (filter (fun r => where_token_type token_type r = true)
       (filter (fun r => where_id_not exclude_id r = true)
          (filter (fun r => AuthVault.session_state_id r = session_state_id) tbl))).

(** [check_duplicate_token_hash]; a row whose [token_hash] is NULL matches
    no hash. The row found is only tested for [None]. *)
Definition check_duplicate_token_hash (tbl : table) (token_hash : string)
    (exclude_id : uuid) : result bool :=
  found ← scalar_one_or_none
    (filter (fun r => AuthVault.token_hash r = Some token_hash
                      ∧ AuthVault.id r ≠ exclude_id) tbl);
  Ok (match found with Some _ => true | None => false end).

Section WithUuid.
Context `{UuidLib} `{UpdateLib}.

(** [upsert_refresh_token] *)
Definition upsert_refresh_token (tbl : table) (new_id : uuid) (now : Z)
    (user_id : uuid) (encrypted_token iv token_hash : string)
    (session_state_id : string) (metadata : option (gmap string jval))
  : result (string * table) :=
  existing ← get_by_user_id tbl user_id (Some REFRESH);
  match existing with
  | Some existing =>
      tbl' ← execute_update tbl (TokenVaultEntry.id existing) encrypted_token iv
               token_hash session_state_id metadata now;
      Ok (uuid_str (TokenVaultEntry.id existing), tbl')
  | None =>
      '(entry, tbl') ← create tbl new_id now user_id REFRESH encrypted_token iv
                         token_hash session_state_id metadata;
      Ok (uuid_str (TokenVaultEntry.id entry), tbl')
  end.
End WithUuid.

(** [delete_by_id] *)
Definition delete_by_id (tbl : table) (token_id : uuid) : bool * table :=
  let kept := filter (fun r => AuthVault.id r ≠ token_id) tbl in
  ((length kept <? length tbl)%nat, kept).

End TokenVaultRepository.

(** ** [app/services/token_vault.py] *)

(** What one request draws from outside the program: the random source
    behind [secrets.token_hex], the [uuid4] of a new row, and the clock. *)
Record Env : Type := {
  rand : nat -> byte;
  uuid4 : uuid;
  now : Z
}.

(** Python truth of an [Optional[str]]: [None] and [""] are false. *)
Definition truthy (o : option string) : option string :=
  match o with
  | Some s => if String.eqb s "" then None else Some s
  | None => None
  end.

Module TokenVaultService.
Section WithBackends.
Context `{CryptoBackend} `{UuidLib} `{UpdateLib}.
Variable encryption : EncryptionService.

(** [store_token] *)
Definition store_token (tbl : table) (env : Env) (user_id : uuid) (token : ustr)
  (token_type : TokenType) (session_state_id : string)
  (metadata : option (gmap string jval)) : result (TokenVaultEntry.t * table) :=
let iv := generate_iv (rand env) in
encrypted_token ← encrypt_token encryption token iv;
token_hash ← hash_token token;
TokenVaultRepository.create tbl (uuid4 env) (now env) user_id token_type
  encrypted_token iv token_hash session_state_id metadata.

(** [retrieve_and_decrypt] *)
Definition retrieve_and_decrypt (tbl : table) (token_id : uuid)
: result (TokenVaultEntry.t * ustr) :=
entry ← TokenVaultRepository.get_by_id tbl token_id;
match entry with
| None => Raise (TokenNotFoundError ("Token " +:+ uuid_str token_id +:+ " not found"))
| Some entry =>
    match truthy (TokenVaultEntry.encrypted_token entry),
          truthy (TokenVaultEntry.iv entry) with
    | Some encrypted_token, Some iv =>
        decrypted_token ← decrypt_token encryption encrypted_token iv;
        Ok (entry, decrypted_token)
    | _, _ =>
        Raise (TokenNotFoundError
                 ("Token " +:+ uuid_str token_id +:+ " has no encrypted data"))
    end
end.

(** [upsert_refresh_token] *)
Definition upsert_refresh_token (tbl : table) (env : Env) (user_id : uuid)
  (token : ustr) (session_state_id : string) (metadata : option (gmap string jval))
: result (string * table) :=
let iv := generate_iv (rand env) in
encrypted_token ← encrypt_token encryption token iv;
token_hash ← hash_token token;
TokenVaultRepository.upsert_refresh_token tbl (uuid4 env) (now env) user_id
  encrypted_token iv token_hash session_state_id metadata.

(** The shared tail of [get_by_session_state] and [get_by_user_id]:
  [if not entry or not entry.encrypted_token or not entry.iv: return None],
  then decrypt. *)
Definition decrypt_entry (entry : option TokenVaultEntry.t)
: result (option (TokenVaultEntry.t * ustr)) :=
match entry with
| None => Ok None
| Some entry =>
    match truthy (TokenVaultEntry.encrypted_token entry),
          truthy (TokenVaultEntry.iv entry) with
    | Some encrypted_token, Some iv =>
        decrypted_token ← decrypt_token encryption encrypted_token iv;
        Ok (Some (entry, decrypted_token))
    | _, _ => Ok None
    end
end.

(** [get_by_session_state] *)
Definition get_by_session_state (tbl : table) (session_state_id : string)
  (token_type : option TokenType) : result (option (TokenVaultEntry.t * ustr)) :=
entry ← TokenVaultRepository.get_by_session_state_id tbl session_state_id token_type;
decrypt_entry entry.

(** [get_by_user_id] *)
Definition get_by_user_id (tbl : table) (user_id : uuid)
  (token_type : option TokenType) : result (option (TokenVaultEntry.t * ustr)) :=
entry ← TokenVaultRepository.get_by_user_id tbl user_id token_type;
decrypt_entry entry.

(** [delete_token] *)
Definition delete_token (tbl : table) (token_id : uuid) : bool * table :=
TokenVaultRepository.delete_by_id tbl token_id.

(** [check_shared_token] *)
Definition check_shared_token (tbl : table) (token_hash session_state_id : string)
  (exclude_id : uuid) : result (bool * bool) :=
has_duplicate_hash ←
  TokenVaultRepository.check_duplicate_token_hash tbl token_hash exclude_id;
shared_sessions ←
  TokenVaultRepository.get_all_by_session_state_id tbl session_state_id
    (Some exclude_id) None;
Ok (has_duplicate_hash, (0 <? length shared_sessions)%nat).
End WithBackends.
End TokenVaultService.

(** ** [app/services/state_token.py] *)

(** What [jwt.decode(token, key, algorithms=["HS256"])] does at time [now]:
    it returns the payload, raises [ExpiredSignatureError], or raises
    another [InvalidTokenError] (bad signature, malformed token) with the
    library's message. The compact serialisation and the HMAC are PyJWT's. *)
Inductive jwt_result : Type :=
  | JwtPayload (payload : gmap string jval)
  | ExpiredSignatureError
  | InvalidTokenError (msg : string).

Class JwtLib : Type := {
  jwt_encode : gmap string jval -> string -> string;
  jwt_decode : string -> string -> Z -> jwt_result
}.

Module StateTokenPayload.
Record t : Type := mk { user_id : string; session_state_id : string }.
End StateTokenPayload.

(** [StateTokenPayload(user_id=u, session_state_id=s)]: both fields are
    declared [str]; any other value fails pydantic's validation. *)
Definition StateTokenPayload_validate (u s : jval) : result StateTokenPayload.t :=
  match u, s with
  | JStr u, JStr s => Ok (StateTokenPayload.mk u s)
  | _, _ => Raise PydanticValidationError
  end.

(** [payload[k]]: the value, or the [KeyError] whose [str()] is the quoted
    key. *)
Definition KeyError_str (k : string) : string := "'" +:+ k +:+ "'".

Module StateTokenService.
Section WithJwt.
Context `{JwtLib}.
Variable secret_key : string.

(** [generate_state_token]; [now] is [datetime.now(timezone.utc)] in
  seconds. *)
Definition generate_state_token (now : Z) (user_id session_state_id : string)
  (expires_in : Z) : string :=
let payload : gmap string jval :=
  <["iat" := JNum now]>
    (<["exp" := JNum (now + expires_in)]>
       (<["session_state_id" := JStr session_state_id]>
          (<["user_id" := JStr user_id]> ∅))) in
jwt_encode payload secret_key.

(** The [try] body of [parse_state_token] after [jwt.decode] returned, with
  the [except KeyError] clause. *)
Definition payload_to_state (payload : gmap string jval) : result StateTokenPayload.t :=
match payload !! "user_id" with
| None =>
    Raise (InvalidStateTokenError
             ("Missing required field in state token: " +:+ KeyError_str "user_id"))
| Some u =>
    match payload !! "session_state_id" with
    | None =>
        Raise (InvalidStateTokenError
                 ("Missing required field in state token: "
                    +:+ KeyError_str "session_state_id"))
    | Some s => StateTokenPayload_validate u s
    end
end.

(** [parse_state_token] *)
Definition parse_state_token (now : Z) (token : string) : result StateTokenPayload.t :=
match jwt_decode token secret_key now with
| JwtPayload payload => payload_to_state payload
| ExpiredSignatureError => Raise (InvalidStateTokenError "State token has expired")
| InvalidTokenError msg => Raise (InvalidStateTokenError ("Invalid state token: " +:+ msg))
end.
End WithJwt.
End StateTokenService.

(** ** [app/services/keycloak.py] *)

Module TokenIntrospection.
Record t : Type := mk {
  active : bool;
  sub : option string;
  session_state : option string
}.
End TokenIntrospection.

Module KeycloakTokenResponse.
Record t : Type := mk {
  access_token : string;
  refresh_token : option ustr;
  expires_in : Z;
  token_type : string;
  scope : option string;
  session_state : string
}.
End KeycloakTokenResponse.

(** An HTTP response: status, body text, and the body parsed into the
    expected pydantic model from [response.json()], which may fail. *)
Record Response (A : Type) : Type := {
  status_code : Z;
  text : string;
  json : result A
}.
Arguments status_code {A} _.
Arguments text {A} _.
Arguments json {A} _.

(** The form posted to the token endpoint. *)
Inductive grant : Type :=
  | refresh_token_grant (refresh_token : ustr) (scope : option string)
  | authorization_code_grant (code redirect_uri : string).

(** The provider behind [httpx.AsyncClient.post], and the settings. *)
Record KeycloakService : Type := {
  post_introspection : string -> Response TokenIntrospection.t;
  post_token : grant -> Response KeycloakTokenResponse.t;
  redirect_uri : string
}.

Module Keycloak.
Definition checked {A} (what : string) (response : Response A) : result A :=
  if (status_code response =? 200)%Z then json response
  else Raise (KeycloakError (what +:+ text response) (status_code response)).

Definition refresh_access_token (self : KeycloakService) (refresh_token : ustr)
  : result KeycloakTokenResponse.t :=
  checked "Token refresh failed: " (post_token self (refresh_token_grant refresh_token None)).

Definition request_offline_token (self : KeycloakService) (refresh_token : ustr)
  : result KeycloakTokenResponse.t :=
  checked "Offline token request failed: "
    (post_token self (refresh_token_grant refresh_token (Some "offline_access"))).

Definition introspect_token (self : KeycloakService) (token : string)
  : result TokenIntrospection.t :=
  checked "Token introspection failed: " (post_introspection self token).

Definition exchange_code_for_token (self : KeycloakService) (code redirect_uri : string)
  : result KeycloakTokenResponse.t :=
  checked "Code exchange failed: "
    (post_token self (authorization_code_grant code redirect_uri)).
End Keycloak.

(** ** [app/core/guards.py] *)

(** [guard_not_none(value, error_message)] *)
Definition guard_not_none {A} (value : option A) (error_message : string) : result A :=
  match value with
  | None => Raise (ValidationError error_message)
  | Some v => Ok v
  end.

(** [guard_condition(condition, error_message, error_code)] *)
Definition guard_condition (condition : bool) (error_message error_code : string)
  : result unit :=
  if condition then Ok tt else Raise (AuthManagerError error_message error_code).

(** A call [guard_not_none(value, error_message, error_code)] with three
    positional arguments, as the endpoints write it for the provider's
    refresh token. The function has two parameters: binding the third
    raises [TypeError] when the call is evaluated, before the body looks at
    [value]. *)
Definition guard_not_none_3 {A} (value : option A) (error_message error_code : string)
  : result A :=
  Raise (TypeError "guard_not_none() takes 2 positional arguments but 3 were given").

(** ** The endpoints ([app/api/v1/auth_manager/])

    An endpoint runs against the table and calls its collaborators in
    sequence. The calls it makes are recorded in order, so that what happens
    before a failure can be stated. *)

Inductive call : Type :=
  | call_introspect_token
  | call_refresh_access_token
  | call_request_offline_token
  | call_exchange_code_for_token
  | call_parse_state_token
  | call_get_by_user_id
  | call_get_by_session_state
  | call_store_token
  | call_upsert_refresh_token.

#[global] Instance call_eq_dec : EqDecision call.
Proof. solve_decision. Defined.

Record world : Type := { db : table; calls : list call }.

Definition flow (A : Type) : Type := world -> result A * world.

#[global] Instance flow_ret : MRet flow := fun A a w => (Ok a, w).
#[global] Instance flow_bind : MBind flow := fun A B f m w =>
  match m w with
  | (Ok a, w') => f a w'
  | (Raise e, w') => (Raise e, w')
  end.

(** A step that touches no collaborator (a guard, a conversion). *)
Definition lift {A} (r : result A) : flow A := fun w => (r, w).

(** A call to the provider or to the state-token service. *)
Definition external {A} (c : call) (r : result A) : flow A :=
  fun w => (r, {| db := db w; calls := calls w ++ [c] |}).

(** A call to the vault service that reads the table. *)
Definition vault_read {A} (c : call) (f : table -> result A) : flow A :=
  fun w => (f (db w), {| db := db w; calls := calls w ++ [c] |}).

(** A call to the vault service that writes the table. *)
Definition vault_write {A} (c : call) (f : table -> result (A * table)) : flow A :=
  fun w =>
    match f (db w) with
    | Ok (a, tbl') => (Ok a, {| db := tbl'; calls := calls w ++ [c] |})
    | Raise e => (Raise e, {| db := db w; calls := calls w ++ [c] |})
    end.

(** One request ([DatabaseSessionManager.session]): commit when the endpoint
    returns, roll back when it raises. The outcome, the table afterwards and
    the calls made. *)
Definition run_request {A} (endpoint : flow A) (tbl : table)
  : result A * table * list call :=
  match endpoint {| db := tbl; calls := [] |} with
  | (Ok a, w) => (Ok a, db w, calls w)
  | (Raise e, w) => (Raise e, tbl, calls w)
  end.

Module OfflineTokenResponse.
Record t : Type := mk { persistent_token_id : uuid; session_state_id : string }.
End OfflineTokenResponse.

Module RefreshTokenIdResponse.
Record t : Type := mk { persistent_token_id : string }.
End RefreshTokenIdResponse.

Module AccessTokenResponse.
Record t : Type := mk { access_token : string; expires_in : Z }.
End AccessTokenResponse.

Module ValidationResponse.
Record t : Type := mk { valid : bool }.
End ValidationResponse.

Module Endpoints.
Section WithServices.
Context `{CryptoBackend} `{UuidLib} `{UpdateLib} `{JwtLib}.
Variable keycloak : KeycloakService.
Variable state_token_secret : string.
Variable encryption : EncryptionService.

(** [refresh_token_id.make_new_refresh_token_id] *)
Definition make_new_refresh_token_id (env : Env) (token : string)
: flow RefreshTokenIdResponse.t :=
token_info ← external call_introspect_token (Keycloak.introspect_token keycloak token);
user_id ← lift (guard_not_none (TokenIntrospection.sub token_info)
                  "Token missing required claim: sub");
let session_id := TokenIntrospection.session_state token_info in
user_uuid ← lift (UUID user_id);
refresh_token_data ← vault_read call_get_by_user_id
  (fun tbl => TokenVaultService.get_by_user_id encryption tbl user_uuid (Some REFRESH));
match refresh_token_data with
| None => lift (Raise (InvalidRequestError "No session nor was found"))
| Some (entry, decrypted_token) =>
    match truthy (TokenVaultEntry.encrypted_token entry),
          truthy (TokenVaultEntry.iv entry) with
    | Some _, Some _ =>
        new_token_response ← external call_refresh_access_token
          (Keycloak.refresh_access_token keycloak decrypted_token);
        new_refresh_token ← lift
          (guard_not_none_3 (KeycloakTokenResponse.refresh_token new_token_response)
             "No refresh token was generated" "no_refresh_token");
        new_token_id ← vault_write call_upsert_refresh_token
          (fun tbl => TokenVaultService.upsert_refresh_token encryption tbl env
                        user_uuid new_refresh_token
                        (KeycloakTokenResponse.session_state new_token_response)
                        (Some (<["session_id" := jstr_opt session_id]> ∅)));
        mret (RefreshTokenIdResponse.mk new_token_id)
    | _, _ => lift (Raise (TokenNotFoundError "No active refresh token was found"))
    end
end.

(** [offline_token_id.generate_offline_token] *)
Definition generate_offline_token (env : Env) (token : string)
: flow OfflineTokenResponse.t :=
token_info ← external call_introspect_token (Keycloak.introspect_token keycloak token);
_ ← lift (guard_condition (TokenIntrospection.active token_info)
            "Access token is not active" "token_not_active");
user_id ← lift (guard_not_none (TokenIntrospection.sub token_info)
                  "Token missing required claim: sub");
session_state_id ← lift (guard_not_none (TokenIntrospection.session_state token_info)
                           "Token missing required claim: session_state");
offline_token_data ← vault_read call_get_by_session_state
  (fun tbl => TokenVaultService.get_by_session_state encryption tbl session_state_id
                (Some OFFLINE));
match offline_token_data with
| None => lift (Raise (TokenNotFoundError
                         "No offline token was found to generate a new one"))
| Some (entry, decrypted_token) =>
    new_token_response ← external call_request_offline_token
      (Keycloak.request_offline_token keycloak decrypted_token);
    new_offline_token ← lift
      (guard_not_none_3 (KeycloakTokenResponse.refresh_token new_token_response)
         "Could not generate new token" "keycloak_error");
    user_uuid ← lift (UUID user_id);
    new_entry ← vault_write call_store_token
      (fun tbl => TokenVaultService.store_token encryption tbl env user_uuid
                    new_offline_token OFFLINE
                    (KeycloakTokenResponse.session_state new_token_response)
                    (Some (<["from" := JStr (uuid_str (TokenVaultEntry.id entry))]>
                             (<["token_type" :=
                                  JStr (KeycloakTokenResponse.token_type new_token_response)]>
                                (<["scope" :=
                                     jstr_opt (KeycloakTokenResponse.scope new_token_response)]>
                                   ∅)))));
    mret (OfflineTokenResponse.mk (TokenVaultEntry.id new_entry)
            (TokenVaultEntry.session_state_id new_entry))
end.

(** [offline_token.offline_token_callback] *)
Definition offline_token_callback (env : Env) (code state : string)
  (error : option string) : flow OfflineTokenResponse.t :=
match truthy error with
| Some error =>
    lift (Raise (KeycloakError ("Keycloak returned error: " +:+ error) 400))
| None =>
    state_payload ← external call_parse_state_token
      (StateTokenService.parse_state_token state_token_secret (now env) state);
    token_response ← external call_exchange_code_for_token
      (Keycloak.exchange_code_for_token keycloak code (redirect_uri keycloak));
    offline_token ← lift
      (guard_not_none_3 (KeycloakTokenResponse.refresh_token token_response)
         "No refresh token received from Keycloak" "keycloak_error");
    user_id ← lift (UUID (StateTokenPayload.user_id state_payload));
    stored_entry ← vault_write call_store_token
      (fun tbl => TokenVaultService.store_token encryption tbl env user_id
                    offline_token OFFLINE
                    (StateTokenPayload.session_state_id state_payload)
                    (Some (<["token_type" :=
                               JStr (KeycloakTokenResponse.token_type token_response)]>
                             (<["scope" :=
                                  jstr_opt (KeycloakTokenResponse.scope token_response)]>
                                ∅))));
    mret (OfflineTokenResponse.mk (TokenVaultEntry.id stored_entry)
            (StateTokenPayload.session_state_id state_payload))
end.

(** [validate_token.validate_token] *)
Definition validate_token (token : string) : flow ValidationResponse.t :=
introspection_result ← external call_introspect_token
  (Keycloak.introspect_token keycloak token);
_ ← lift (guard_condition (TokenIntrospection.active introspection_result)
            "Token is not active" "token_not_active");
mret (ValidationResponse.mk true).

(** [access_token.get_access_token]. The endpoint only reads the table, so
  it is embedded as a function of it. *)
Definition get_access_token (tbl : table) (id : uuid) : result AccessTokenResponse.t :=
'(entry, decrypted_token) ← TokenVaultService.retrieve_and_decrypt encryption tbl id;
token_response ← Keycloak.refresh_access_token keycloak decrypted_token;
Ok (AccessTokenResponse.mk (KeycloakTokenResponse.access_token token_response)
      (KeycloakTokenResponse.expires_in token_response)).
End WithServices.
End Endpoints.

(** ** The exception handlers ([app/main.py]) *)

Module ErrorResponse.
Record t : Type := mk { error : string; code : string; reason : option string }.
End ErrorResponse.

(** [exc.message] *)
Definition message (e : exn) : string :=
  match e with
  | AuthManagerError m _ | KeycloakError m _ | InvalidStateTokenError m
  | TokenNotFoundError m | UnauthorizedError m | TokenNotActiveError m
  | ValidationError m | InvalidRequestError m => m
  | _ => ""
  end.

(** [exc.details]: [KeycloakError] records the status, [ValidationError]
    what its one raise site ([guard_not_none]) passes, the others nothing. *)
Definition details (e : exn) : gmap string jval :=
  match e with
  | KeycloakError _ status_code => <["status_code" := JNum status_code]> ∅
  | ValidationError _ => <["field" := JStr "value"]> ∅
  | _ => ∅
  end.

Definition ERROR_STATUS_MAP : gmap string Z :=
  <["unauthorized" := 401%Z]>
    (<["token_not_active" := 401%Z]>
       (<["token_not_found" := 404%Z]>
          (<["validation_error" := 400%Z]>
             (<["invalid_request" := 400%Z]>
                (<["invalid_state_token" := 400%Z]> ∅))))).

(** What the client receives: the endpoint's data with its declared status,
    or the status and body that an exception handler builds. *)
Inductive http_response (A : Type) : Type :=
  | Success (status_code : Z) (data : A)
  | Failure (status_code : Z) (body : ErrorResponse.t).
Arguments Success {A} status_code data.
Arguments Failure {A} status_code body.

Definition http_status {A} (r : http_response A) : Z :=
  match r with Success s _ | Failure s _ => s end.

Section Handlers.
(** [str(exc)] and [str(exc.errors())] of the exceptions of the libraries. *)
Variable describe : exn -> string.

(** [auth_manager_error_handler], for an exception whose code is [c] *)
Definition auth_manager_error_handler {A} (exc : exn) (c : string) : http_response A :=
  let status_code :=
    if String.eqb c "keycloak_error"
    then match details exc !! "status_code" with
         | Some (JNum s) => s
         | _ => 500%Z
         end
    else default 500%Z (ERROR_STATUS_MAP !! c) in
  Failure status_code
    (ErrorResponse.mk (message exc) c
       (match details exc !! "reason" with Some (JStr r) => Some r | _ => None end)).

(** [pydantic_validation_error_handler] *)
Definition pydantic_validation_error_handler {A} (exc : exn) : http_response A :=
  Failure 400 (ErrorResponse.mk "Validation error" "validation_error" (Some (describe exc))).

(** [generic_exception_handler] *)
Definition generic_exception_handler {A} (exc : exn) : http_response A :=
  Failure 500 (ErrorResponse.mk "Internal server error" "internal_error"
                 (Some (describe exc))).

(** The handler that the application selects for an exception, by its
    class. *)
Definition exception_handler {A} (exc : exn) : http_response A :=
  match code exc with
  | Some c => auth_manager_error_handler exc c
  | None =>
      match exc with
      | PydanticValidationError => pydantic_validation_error_handler exc
      | _ => generic_exception_handler exc
      end
  end.

(** The response to a request whose endpoint (declared with
    [status_code=status.HTTP_200_OK]) returned or raised. *)
Definition respond {A} (outcome : result A) : http_response A :=
  match outcome with
  | Ok data => Success 200 data
  | Raise exc => exception_handler exc
  end.
End Handlers.

(** ** [app/config.py] *)

(** The two [ValueError]s of [validate_encryption_key]. *)
Inductive encryption_key_error : Type :=
  | KeyNotExactly64Chars   (* "Encryption key must be exactly 64 characters" *)
  | KeyNotHexadecimal.     (* "Encryption key must be a valid hexadecimal string" *)

(** [EncryptionSettings.validate_encryption_key] *)
Definition validate_encryption_key (v : string) : encryption_key_error + string :=
  if negb (String.length v =? 64)%nat then inl KeyNotExactly64Chars
  else
    match fromhex v with
    | Ok _ => inr v
    | Raise _ => inl KeyNotHexadecimal
    end.

(* ===================================================================== *)
(** * Part II. Vocabulary of the statements                               *)
(* ===================================================================== *)

(** A Unicode scalar value: a code point that is not a surrogate. *)
Definition is_scalar (c : N) : bool := (c <? 0x110000)%N && negb (is_surrogate c).

Definition is_text (s : ustr) : Prop := Forall (fun c => is_scalar c = true) s.

(** The bytes that the loop of [_unpad] compares, as a boolean test. *)
Definition padding_bytes_ok (data : list byte) (b : byte) (range : list nat) : bool :=
  forallb (fun i => match data !! (length data - (i + 1))%nat with
                    | Some x => Byte.eqb x b
                    | None => false
                    end) range.

Definition block16 (b : list byte) : Prop := length b = 16%nat.

(** The rows that [get_by_user_id] selects. *)
Definition rows_of_user (user_id : uuid) (token_type : option TokenType) (tbl : table)
  : table :=
  filter (fun r => where_token_type token_type r = true)
    (filter (fun r => AuthVault.user_id r = user_id) tbl).

(** At most one refresh row per user. *)
Definition one_refresh_per_user (tbl : table) : Prop :=
  forall u, (length (rows_of_user u (Some REFRESH) tbl) <= 1)%nat.

Definition id_free (new_id : uuid) (tbl : table) : Prop :=
  Forall (fun r => AuthVault.id r <> new_id) tbl.

(** One call of the vault's upsert, with what it draws from outside. *)
Record upsert_request : Type := {
  ur_env : Env;
  ur_user_id : uuid;
  ur_token : ustr;
  ur_session_state_id : string;
  ur_metadata : option (gmap string jval)
}.

(** The table after a request that returned, the unchanged one otherwise. *)
Definition table_after {A} (tbl : table) (r : result (A * table)) : table :=
  match r with Ok (_, tbl') => tbl' | Raise _ => tbl end.

Section Requests.
Context `{CryptoBackend} `{UuidLib} `{UpdateLib}.
Variable encryption : EncryptionService.

(** Sequential upserts, each in its own request: a failed one is rolled
    back and leaves the table as it was. *)
Fixpoint run_upserts (tbl : table) (requests : list upsert_request) : table :=
  match requests with
  | [] => tbl
  | q :: requests' =>
      match TokenVaultService.upsert_refresh_token encryption tbl (ur_env q)
              (ur_user_id q) (ur_token q) (ur_session_state_id q) (ur_metadata q) with
      | Ok (_, tbl') => run_upserts tbl' requests'
      | Raise _ => run_upserts tbl requests'
      end
  end.

End Requests.

(** The ASCII whitespace characters of a text, which [bytes.fromhex]
    skips. *)
Fixpoint whitespace (s : string) : nat :=
  match s with
  | EmptyString => 0
  | String c s' => (if Py_ISSPACE c then 1 else 0) + whitespace s'
  end.

(** The calls that write the vault. *)
Definition is_vault_write (c : call) : bool :=
  match c with
  | call_store_token | call_upsert_refresh_token => true
  | _ => false
  end.

(** A JSON value that is a string. *)
Definition is_JStr (v : jval) : bool :=
  match v with JStr _ => true | _ => false end.

(** ** Stand-ins for the libraries and concrete inputs

    They serve to run the model; no general theorem depends on them. *)

Definition xor_block (key b : list byte) : list byte := xor_bytes b (take 16 key).

(** The 16 bytes of a UUID, most significant first. *)
Definition uuid_bytes (u : uuid) : list byte :=
  map (fun i => bN ((u / 256 ^ N.of_nat (15 - i)) mod 256)%N) (seq 0 16).

(** [str(u)]: the 32 hexadecimal digits in groups of 8, 4, 4, 4 and 12. *)
Definition canonical_text (u : uuid) : string :=
  let h := hex (uuid_bytes u) in
  substring 0 8 h +:+ "-" +:+ substring 8 4 h +:+ "-" +:+ substring 12 4 h
    +:+ "-" +:+ substring 16 4 h +:+ "-" +:+ substring 20 12 h.

Fixpoint without_hyphens (s : string) : string :=
  match s with
  | EmptyString => EmptyString
  | String c s' =>
      if Ascii.eqb c "-" then without_hyphens s' else String c (without_hyphens s')
  end.

Fixpoint int16 (s : string) (acc : N) : option N :=
  match s with
  | EmptyString => Some acc
  | String c s' =>
      match hex_value c with
      | Some d => int16 s' (16 * acc + d)%N
      | None => None
      end
  end.

(** A stand-in for the [uuid] module on the canonical texts, those that
    [str(u)] prints: [uuid.UUID] reads such a text back to [u]. Every other
    text is refused here, although [uuid.UUID] takes some of them (capital
    digits, braces, a [urn:uuid:] prefix); the runs parse canonical texts
    only and none rests on a refusal. *)
Definition canonical_uuid : UuidLib := {|
  UUID s := match int16 (without_hyphens s) 0 with
            | Some u => if String.eqb (canonical_text u) s then Ok u
                        else Raise (ValueError BadlyFormedUUID)
            | None => Raise (ValueError BadlyFormedUUID)
            end;
  uuid_str := canonical_text
|}.

(** A stand-in for the [UPDATE] statement. No run reaches it: the lookup
    before it never returns a row. *)
Definition update_unreached : UpdateLib := {|
  execute_update tbl _ _ _ _ _ _ _ := Ok tbl
|}.

(** A decoder that answers [r] for every token: the way to put
    [parse_state_token] in front of a given outcome of [jwt.decode]. *)
Definition jwt_answering (r : jwt_result) : JwtLib := {|
  jwt_encode _ _ := "";
  jwt_decode _ _ _ := r
|}.

Definition http_200 {A} (body : A) : Response A :=
  {| status_code := 200; text := ""; json := Ok body |}.

(** A provider that answers every introspection with [introspection] and
    every token request with [tokens]. *)
Definition provider (introspection : TokenIntrospection.t)
    (tokens : KeycloakTokenResponse.t) : KeycloakService := {|
  post_introspection _ := http_200 introspection;
  post_token _ := http_200 tokens;
  redirect_uri := "https://app.example/callback"
|}.

Definition tokens_with (refresh_token : option ustr) : KeycloakTokenResponse.t :=
  KeycloakTokenResponse.mk "at-1" refresh_token 300 "Bearer"
    (Some "openid offline_access") "s2".

Definition zeros (n : nat) : list byte := replicate n x00.

Definition key32 : EncryptionService := {| key := zeros 32 |}.

Definition iv0 : string := hex (zeros 16).

(** Version-4 identifiers:
    [00000000-0000-4000-8000-000000000001], [...02] and [...07]. *)
Definition id_1 : uuid := 0x00000000000040008000000000000001%N.

Definition id_2 : uuid := 0x00000000000040008000000000000002%N.

Definition user_7 : uuid := 0x00000000000040008000000000000007%N.

Definition user_7_text : string := "00000000-0000-4000-8000-000000000007".

Definition env1 : Env := {| rand := fun _ => x00; uuid4 := id_1; now := 100%Z |}.

Definition env2 : Env :=
  {| rand := fun i => bN (N.of_nat i); uuid4 := id_2; now := 200%Z |}.

Definition rt_123 : ustr := ustr_of_string "rt-123".

Definition rt_456 : ustr := ustr_of_string "rt-456".

Definition state_payload (user_id session_state_id : string) (iat exp : Z)
  : gmap string jval :=
  <["iat" := JNum iat]>
    (<["exp" := JNum exp]>
       (<["session_state_id" := JStr session_state_id]>
          (<["user_id" := JStr user_id]> ∅))).

(** A row without ciphertext and IV, as a partially initialised or revoked
    row is. *)
Definition unreadable_row : AuthVault.t :=
  AuthVault.mk id_1 user_7 OFFLINE None None None None "s1" 100%Z None.

Definition the_TypeError : exn :=
  TypeError "guard_not_none() takes 2 positional arguments but 3 were given".

(** A key text of 64 characters: 48 hexadecimal digits and 16 spaces. *)
Definition key_with_spaces : string :=
  hex (zeros 24) +:+ "                ".

(* ===================================================================== *)
(** * Part III. Properties                                                *)
(* ===================================================================== *)

(** ** Bytes, hexadecimal text, UTF-8 *)

Lemma to_N_bN (n : N) : (n < 256)%N -> Byte.to_N (bN n) = n.
Proof.
  intros Hn. unfold bN.
  destruct (Byte.of_N n) as [b|] eqn:E.
  - simpl. by apply Byte.to_of_N.
  - apply Byte.of_N_None_iff in E. lia.
Qed.

Lemma bN_to_N (b : byte) : bN (Byte.to_N b) = b.
Proof. unfold bN. by rewrite Byte.of_to_N. Qed.

Lemma to_N_lt_256 (b : byte) : (Byte.to_N b < 256)%N.
Proof. pose proof (Byte.to_N_bounded b). lia. Qed.

Lemma fromhex_hex_byte (b : byte) (s : string) :
  fromhex (String (hex_digit (Byte.to_N b / 16))
             (String (hex_digit (Byte.to_N b mod 16)) s))
  = bs ← fromhex s; Ok (b :: bs).
Proof. destruct b; reflexivity. Qed.

Lemma fromhex_hex (bs : list byte) : fromhex (hex bs) = Ok bs.
Proof.
  induction bs as [|b bs IH]; [reflexivity|].
  cbn [hex]. rewrite fromhex_hex_byte, IH. reflexivity.
Qed.

Lemma length_hex (bs : list byte) : String.length (hex bs) = (2 * length bs)%nat.
Proof. induction bs as [|b bs IH]; simpl in *; lia. Qed.

Ltac decide_tests :=
  repeat (match goal with
    | |- context [N.ltb ?a ?b] =>
        first [ rewrite (proj2 (N.ltb_lt a b)) by lia
              | rewrite (proj2 (N.ltb_ge a b)) by lia ]
    | |- context [N.leb ?a ?b] =>
        first [ rewrite (proj2 (N.leb_le a b)) by lia
              | rewrite (proj2 (N.leb_gt a b)) by lia ]
    end; cbn [andb orb negb]).

Local Open Scope N_scope.

(** Name the base-64 digits of [c]: quotient [q] and remainder [r]. *)
Ltac digits64 c q r :=
  pose proof (N.div_mod c 64 ltac:(discriminate));
  pose proof (N.mod_lt c 64 ltac:(discriminate));
  set (q := c / 64) in *; set (r := c mod 64) in *.

Lemma decode_encode_char (c : N) (rest : list byte) :
  is_scalar c = true ->
  exists bs, utf8_encode_char c = Ok bs /\
    decode (bs ++ rest) = cs ← decode rest; Ok (c :: cs).
Proof.
  unfold is_scalar, utf8_encode_char, is_surrogate. intros Hc.
  destruct (N.ltb_spec c 0x80); [|destruct (N.ltb_spec c 0x800);
    [|destruct (N.ltb_spec c 0x10000); [|destruct (N.ltb_spec c 0x110000)]]].
  - eexists; split; [reflexivity|]. cbn [app decode].
    rewrite to_N_bN by lia. decide_tests. reflexivity.
  - eexists; split; [reflexivity|]. cbn [app decode]. unfold is_cont, cont_bits.
    digits64 c q r. clearbody q r.
    rewrite !to_N_bN by lia.
    replace ((192 + q - 192) * 64 + (128 + r - 128)) with c by lia.
    decide_tests. reflexivity.
  - destruct (N.leb_spec 0xD800 c), (N.leb_spec c 0xDFFF); cbn [andb negb] in *;
      try (rewrite andb_false_r in Hc; discriminate); try (exfalso; lia).
    all: eexists; (split; [reflexivity|]); cbn [app decode];
      unfold is_cont, cont_bits, is_surrogate.
    all: replace (c / 4096) with (c / 64 / 64) by (rewrite N.Div0.div_div by lia; reflexivity).
    all: digits64 c q r; digits64 q q' r'; clearbody q r q' r'.
    all: rewrite !to_N_bN by lia.
    all: replace ((224 + q' - 224) * 4096 + (128 + r' - 128) * 64 + (128 + r - 128))
           with c by lia.
    all: decide_tests; reflexivity.
  - eexists; split; [reflexivity|]. cbn [app decode]. unfold is_cont, cont_bits.
    replace (c / 262144) with (c / 64 / 64 / 64) by (rewrite !N.Div0.div_div by lia; reflexivity).
    replace (c / 4096) with (c / 64 / 64) by (rewrite N.Div0.div_div by lia; reflexivity).
    digits64 c q r; digits64 q q' r'; digits64 q' q'' r''. clearbody q r q' r' q'' r''.
    rewrite !to_N_bN by lia.
    replace ((240 + q'' - 240) * 262144 + (128 + r'' - 128) * 4096
             + (128 + r' - 128) * 64 + (128 + r - 128)) with c by lia.
    decide_tests; reflexivity.
  - destruct (N.ltb_spec c 1114112); [lia|]. discriminate.
Qed.

Lemma encode_is_text (s : ustr) : is_text s -> exists bs, encode s = Ok bs.
Proof.
  induction 1 as [|c s Hc _ [bs IH]]; [by eexists|].
  destruct (decode_encode_char c [] Hc) as (cb & E & _).
  cbn [encode]. rewrite E, IH. by eexists.
Qed.

Lemma decode_encode (s : ustr) (bs : list byte) :
  is_text s -> encode s = Ok bs -> decode bs = Ok s.
Proof.
  intros Hs. revert bs. induction Hs as [|c s Hc _ IH]; intros bs E.
  - cbn in E. by inversion E.
  - cbn [encode] in E.
    destruct (encode s) as [rest|] eqn:Es.
    + destruct (decode_encode_char c rest Hc) as (cb & Ec & D).
      rewrite Ec in E. cbn in E. inversion E; subst.
      rewrite D, (IH rest eq_refl). reflexivity.
    + destruct (utf8_encode_char c); cbn in E; discriminate.
Qed.

Lemma encode_surrogate (c : N) (s : ustr) :
  is_surrogate c = true -> encode (c :: s) = Raise UnicodeEncodeError.
Proof.
  unfold is_surrogate. intros Hc. cbn [encode]. unfold utf8_encode_char, is_surrogate.
  rewrite Hc. apply andb_prop in Hc as [H1 H2].
  apply N.leb_le in H1, H2.
  destruct (N.ltb_spec c 0x80); [lia|]. destruct (N.ltb_spec c 0x800); [lia|].
  destruct (N.ltb_spec c 0x10000); [reflexivity|lia].
Qed.

Local Close Scope N_scope.

(** ** PKCS#7 padding *)

Lemma to_nat_bN (n : nat) : (n < 256)%nat -> Byte.to_nat (bN (N.of_nat n)) = n.
Proof. intros Hn. rewrite Byte.to_nat_via_N, to_N_bN by lia. lia. Qed.

Lemma index_from_end_lookup (data : list byte) (k : nat) (b : byte) :
  (1 <= k <= length data)%nat ->
  data !! (length data - k)%nat = Some b ->
  index_from_end data k = Ok b.
Proof.
  intros Hk E. unfold index_from_end.
  destruct (Nat.leb_spec k (length data)); [|lia]. by rewrite E.
Qed.

Lemma index_from_end_in_range (data : list byte) (k : nat) :
  (1 <= k <= length data)%nat ->
  exists b, data !! (length data - k)%nat = Some b /\ index_from_end data k = Ok b.
Proof.
  intros Hk. destruct (data !! (length data - k)%nat) as [b|] eqn:E.
  - exists b. split; [done|]. by apply index_from_end_lookup.
  - apply lookup_ge_None in E. lia.
Qed.

Lemma check_padding_spec (data : list byte) (b : byte) (range : list nat) :
  Forall (fun i => (i + 1 <= length data)%nat) range ->
  check_padding data b range =
    if padding_bytes_ok data b range then Ok tt
    else Raise (ValueError InvalidPaddingBytes).
Proof.
  induction 1 as [|i range Hi _ IH]; [reflexivity|].
  cbn [check_padding padding_bytes_ok forallb].
  destruct (index_from_end_in_range data (i + 1)) as (x & Hx & ->); [lia|].
  rewrite Hx. cbn. destruct (Byte.eqb x b); [apply IH | reflexivity].
Qed.

Lemma padding_bytes_ok_trailing (data : list byte) (b : byte) (n : nat) :
  (n <= length data)%nat ->
  padding_bytes_ok data b (seq 0 n) = true <->
  Forall (eq b) (drop (length data - n) data).
Proof.
  intros Hn. unfold padding_bytes_ok. rewrite forallb_forall, Forall_lookup. split.
  - intros Hall j x Hj. rewrite lookup_drop in Hj.
    pose proof (lookup_lt_Some _ _ _ Hj) as Hlt.
    specialize (Hall (n - 1 - j)%nat).
    replace (length data - (n - 1 - j + 1))%nat with (length data - n + j)%nat in Hall by lia.
    rewrite Hj in Hall. symmetry. apply Byte.byte_dec_bl, Hall.
    apply in_seq. lia.
  - intros Hall i Hi. apply in_seq in Hi.
    destruct (data !! (length data - (i + 1))%nat) as [x|] eqn:E.
    + apply Byte.byte_dec_lb. symmetry. apply (Hall (n - 1 - i)%nat).
      rewrite lookup_drop. rewrite <- E. f_equal. lia.
    + apply lookup_ge_None in E. lia.
Qed.

Lemma last_index_from_end (data : list byte) (b : byte) :
  last data = Some b -> index_from_end data 1 = Ok b.
Proof.
  intros E. rewrite last_lookup in E.
  assert (0 < length data)%nat.
  { destruct data; [discriminate|simpl; lia]. }
  apply index_from_end_lookup; [lia|]. rewrite <- E. f_equal. lia.
Qed.

(** What [_unpad] does with data whose last byte is [b]. *)
Lemma _unpad_spec (data : list byte) (b : byte) :
  last data = Some b ->
  (Byte.to_nat b <= 16 -> Byte.to_nat b <= length data)%nat ->
  _unpad data =
    if (16 <? Byte.to_nat b)%nat || (Byte.to_nat b =? 0)%nat
    then Raise (ValueError InvalidPaddingLength)
    else if padding_bytes_ok data b (seq 0 (Byte.to_nat b))
         then Ok (take (length data - Byte.to_nat b) data)
         else Raise (ValueError InvalidPaddingBytes).
Proof.
  intros Hlast Hlen. unfold _unpad.
  assert (0 < length data)%nat.
  { destruct data; [discriminate|simpl; lia]. }
  destruct (Nat.eqb_spec (length data) 0); [lia|].
  rewrite (last_index_from_end _ _ Hlast). unfold mbind, result_bind.
  destruct (Nat.ltb_spec 16 (Byte.to_nat b)); cbn [orb]; [reflexivity|].
  destruct (Nat.eqb_spec (Byte.to_nat b) 0); [reflexivity|].
  rewrite check_padding_spec.
  - by destruct (padding_bytes_ok _ _ _).
  - apply Forall_forall. intros i Hi. apply elem_of_seq in Hi. lia.
Qed.

Lemma _pad_length (data : list byte) :
  exists n, (1 <= n <= 16)%nat /\ n = (16 - length data mod 16)%nat /\
            length (_pad data) = (length data + n)%nat /\
            (length (_pad data) mod 16 = 0)%nat.
Proof.
  exists (16 - length data mod 16)%nat.
  pose proof (Nat.mod_upper_bound (length data) 16 ltac:(lia)).
  pose proof (Nat.div_mod_eq (length data) 16).
  unfold _pad. rewrite length_app, length_replicate.
  repeat split; try lia.
  replace (length data + (16 - length data mod 16))%nat
    with ((length data / 16 + 1) * 16)%nat by lia.
  apply Nat.Div0.mod_mul.
Qed.

Lemma _unpad_pad (data : list byte) : _unpad (_pad data) = Ok data.
Proof.
  destruct (_pad_length data) as (n & Hn & En & Hlen & _).
  assert (Epad : _pad data = data ++ replicate n (bN (N.of_nat n))).
  { unfold _pad. by rewrite <- En. }
  assert (Hlast : last (_pad data) = Some (bN (N.of_nat n))).
  { rewrite Epad, last_lookup, length_app, length_replicate.
    rewrite lookup_app_r by lia. apply lookup_replicate_2. lia. }
  rewrite (_unpad_spec _ _ Hlast); rewrite to_nat_bN by lia; [|lia].
  destruct (Nat.ltb_spec 16 n); [lia|]. destruct (Nat.eqb_spec n 0); [lia|]. cbn [orb].
  assert (Hok : padding_bytes_ok (_pad data) (bN (N.of_nat n)) (seq 0 n) = true).
  { apply padding_bytes_ok_trailing; [lia|].
    rewrite Hlen, Epad.
    replace (length data + n - n)%nat with (length data) by lia.
    rewrite drop_app_length. apply Forall_replicate_eq. }
  rewrite Hok, Hlen, Epad.
  replace (length data + n - n)%nat with (length data) by lia.
  by rewrite take_app_length.
Qed.

(** ** Xor of bytes and blocks *)

Lemma log2_byte (x : N) : (x < 256)%N -> (N.log2 x < 8)%N.
Proof.
  intros Hx. destruct (N.eq_dec x 0%N) as [->|Hne]; [reflexivity|].
  apply N.log2_lt_pow2; [lia|exact Hx].
Qed.

Lemma lxor_byte (x y : N) : (x < 256)%N -> (y < 256)%N -> (N.lxor x y < 256)%N.
Proof.
  intros Hx Hy.
  destruct (N.eq_dec (N.lxor x y) 0%N) as [->|Hne]; [reflexivity|].
  apply (N.log2_lt_pow2 _ 8%N); [lia|].
  pose proof (N.log2_lxor x y). pose proof (log2_byte x Hx). pose proof (log2_byte y Hy).
  lia.
Qed.

Lemma bxor_involutive (a b : byte) : bxor (bxor a b) b = a.
Proof.
  unfold bxor.
  rewrite to_N_bN by (apply lxor_byte; apply to_N_lt_256).
  rewrite N.lxor_assoc, N.lxor_nilpotent, N.lxor_0_r. apply bN_to_N.
Qed.

Lemma length_xor_bytes (a b : list byte) :
  length a = length b -> length (xor_bytes a b) = length a.
Proof. intros E. unfold xor_bytes. rewrite length_zip_with. lia. Qed.

Lemma xor_bytes_involutive (a b : list byte) :
  length a = length b -> xor_bytes (xor_bytes a b) b = a.
Proof.
  unfold xor_bytes. revert b.
  induction a as [|x a IH]; intros [|y b] E; try discriminate; [reflexivity|].
  cbn. rewrite bxor_involutive. f_equal. apply IH. by inversion E.
Qed.

(** ** Splitting into blocks *)

Lemma concat_blocks_fuel (fuel : nat) (data : list byte) :
  (length data <= fuel)%nat -> concat (blocks_fuel fuel data) = data.
Proof.
  revert data. induction fuel as [|fuel IH]; intros data Hlen.
  - destruct data; [reflexivity|simpl in Hlen; lia].
  - destruct data as [|x data]; [reflexivity|].
    cbn [blocks_fuel concat]. rewrite IH.
    + apply take_drop.
    + rewrite length_drop. simpl in *. lia.
Qed.

Lemma concat_blocks (data : list byte) : concat (blocks data) = data.
Proof. by apply concat_blocks_fuel. Qed.

Lemma blocks_fuel_block16 (fuel : nat) (data : list byte) :
  (length data <= fuel)%nat -> (length data mod 16 = 0)%nat ->
  Forall block16 (blocks_fuel fuel data).
Proof.
  revert data. induction fuel as [|fuel IH]; intros data Hlen Hmod; [constructor|].
  destruct data as [|x data]; [constructor|].
  assert (16 <= length (x :: data))%nat.
  { pose proof (Nat.div_mod_eq (length (x :: data)) 16).
    assert (0 < length (x :: data))%nat by (simpl; lia). lia. }
  cbn [blocks_fuel]. constructor.
  - unfold block16. rewrite length_take. lia.
  - apply IH.
    + rewrite length_drop. simpl in *. lia.
    + rewrite length_drop.
      pose proof (Nat.div_mod_eq (length (x :: data)) 16).
      replace (length (x :: data) - 16)%nat
        with ((length (x :: data) / 16 - 1) * 16)%nat by lia.
      apply Nat.Div0.mod_mul.
Qed.

Lemma blocks_block16 (data : list byte) :
  (length data mod 16 = 0)%nat -> Forall block16 (blocks data).
Proof. by apply blocks_fuel_block16. Qed.

Lemma blocks_fuel_concat (fuel : nat) (bl : list (list byte)) :
  Forall block16 bl -> (length bl <= fuel)%nat ->
  blocks_fuel fuel (concat bl) = bl.
Proof.
  intros Hbl. revert fuel. induction Hbl as [|b bl Hb _ IH]; intros fuel Hfuel.
  - by destruct fuel.
  - destruct fuel as [|fuel]; [simpl in Hfuel; lia|].
    cbn [concat blocks_fuel].
    destruct (b ++ concat bl) as [|x r] eqn:E.
    { apply (f_equal length) in E. rewrite length_app in E.
      unfold block16 in Hb. simpl in E. lia. }
    rewrite <- E.
    rewrite take_app_length' by (symmetry; exact Hb).
    rewrite drop_app_length' by (symmetry; exact Hb).
    f_equal. apply IH. simpl in Hfuel. lia.
Qed.

Lemma length_concat_block16 (bl : list (list byte)) :
  Forall block16 bl -> length (concat bl) = (length bl * 16)%nat.
Proof.
  induction 1 as [|b bl Hb _ IH]; [reflexivity|].
  cbn [concat]. rewrite length_app, IH. unfold block16 in Hb. simpl. lia.
Qed.

Lemma blocks_concat (bl : list (list byte)) :
  Forall block16 bl -> blocks (concat bl) = bl.
Proof.
  intros Hbl. apply blocks_fuel_concat; [done|].
  rewrite length_concat_block16 by done. lia.
Qed.

(** ** CBC *)

Section CipherFacts.
Context `{CryptoBackend}.

Lemma cbc_encrypt_blocks_block16 (key prev : list byte) (ps : list (list byte)) :
  aes_key_size_ok key = true -> block16 prev -> Forall block16 ps ->
  Forall block16 (cbc_encrypt_blocks key prev ps).
Proof.
  intros Hkey Hprev Hps. revert prev Hprev.
  induction Hps as [|p ps Hp _ IH]; intros prev Hprev; [constructor|].
  cbn [cbc_encrypt_blocks].
  assert (block16 (aes_encrypt_block key (xor_bytes p prev))).
  { apply aes_encrypt_block_length; [done|].
    rewrite length_xor_bytes; unfold block16 in *; congruence. }
  constructor; [done|]. by apply IH.
Qed.

Lemma cbc_decrypt_encrypt_blocks (key prev : list byte) (ps : list (list byte)) :
  aes_key_size_ok key = true -> block16 prev -> Forall block16 ps ->
  cbc_decrypt_blocks key prev (cbc_encrypt_blocks key prev ps) = ps.
Proof.
  intros Hkey Hprev Hps. revert prev Hprev.
  induction Hps as [|p ps Hp _ IH]; intros prev Hprev; [reflexivity|].
  cbn [cbc_encrypt_blocks cbc_decrypt_blocks].
  assert (Hx : length (xor_bytes p prev) = 16%nat).
  { rewrite length_xor_bytes; unfold block16 in *; congruence. }
  rewrite aes_decrypt_encrypt_block by done.
  rewrite xor_bytes_involutive by (unfold block16 in *; congruence).
  f_equal. apply IH. by apply aes_encrypt_block_length.
Qed.

Lemma cbc_decrypt_encrypt (key iv data ct : list byte) :
  length iv = 16%nat ->
  cbc_encrypt key iv data = Ok ct -> cbc_decrypt key iv ct = Ok data.
Proof.
  intros Hiv. unfold cbc_encrypt, cbc_decrypt.
  destruct (aes_key_size_ok key) eqn:Hkey; [|discriminate]. cbn [negb].
  destruct (Nat.eqb_spec (length data mod 16) 0) as [Hmod|]; [|discriminate].
  cbn [negb]. intros [= <-].
  pose proof (blocks_block16 data Hmod) as Hps.
  pose proof (cbc_encrypt_blocks_block16 key iv _ Hkey Hiv Hps) as Hcs.
  rewrite length_concat_block16 by done.
  rewrite Nat.Div0.mod_mul. cbn [Nat.eqb negb].
  rewrite blocks_concat by done.
  rewrite cbc_decrypt_encrypt_blocks by done.
  by rewrite concat_blocks.
Qed.

Lemma cbc_encrypt_ok (key iv data : list byte) :
  aes_key_size_ok key = true -> (length data mod 16 = 0)%nat ->
  exists ct, cbc_encrypt key iv data = Ok ct.
Proof.
  intros Hkey Hmod. unfold cbc_encrypt. rewrite Hkey, Hmod. by eexists.
Qed.

End CipherFacts.

(** ** A stand-in backend

    The interface is inhabited: xor with the first 16 key bytes is a block
    function that satisfies it. It serves to run the model on concrete
    inputs; none of the general theorems depends on it. *)

Lemma aes_key_size_ok_take (key : list byte) :
  aes_key_size_ok key = true -> length (take 16 key) = 16%nat.
Proof.
  unfold aes_key_size_ok. rewrite length_take. intros Hk.
  apply orb_prop in Hk as [Hk|Hk]; [apply orb_prop in Hk as [Hk|Hk]|];
    apply Nat.eqb_eq in Hk; lia.
Qed.

Lemma xor_block_length (key b : list byte) :
  aes_key_size_ok key = true -> length b = 16%nat -> length (xor_block key b) = 16%nat.
Proof.
  intros Hk Hb. unfold xor_block. rewrite length_xor_bytes; [done|].
  by rewrite aes_key_size_ok_take.
Qed.

Lemma xor_block_involutive (key b : list byte) :
  aes_key_size_ok key = true -> length b = 16%nat ->
  xor_block key (xor_block key b) = b.
Proof.
  intros Hk Hb. unfold xor_block. apply xor_bytes_involutive.
  by rewrite aes_key_size_ok_take.
Qed.

Definition xor_backend : CryptoBackend := {|
  aes_encrypt_block := xor_block;
  aes_decrypt_block := xor_block;
  sha256 data := take 32 (data ++ replicate 32 x00);
  aes_encrypt_block_length := xor_block_length;
  aes_decrypt_block_length := xor_block_length;
  aes_decrypt_encrypt_block := xor_block_involutive
|}.

Section EncryptionFacts.
Context `{CryptoBackend}.

Lemma cbc_decrypt_blocks_block16 (key prev : list byte) (cs : list (list byte)) :
  aes_key_size_ok key = true -> block16 prev -> Forall block16 cs ->
  Forall block16 (cbc_decrypt_blocks key prev cs).
Proof.
  intros Hkey Hprev Hcs. revert prev Hprev.
  induction Hcs as [|c cs Hc _ IH]; intros prev Hprev; [constructor|].
  cbn [cbc_decrypt_blocks]. constructor; [|by apply IH].
  unfold block16 in *.
  rewrite length_xor_bytes; rewrite aes_decrypt_block_length; done.
Qed.

Lemma cbc_decrypt_whole_blocks (key iv ct d : list byte) :
  length iv = 16%nat -> cbc_decrypt key iv ct = Ok d ->
  (length d mod 16 = 0)%nat.
Proof.
  intros Hiv. unfold cbc_decrypt.
  destruct (aes_key_size_ok key) eqn:Hkey; [|discriminate]. cbn [negb].
  destruct (Nat.eqb_spec (length ct mod 16) 0) as [Hmod|]; [|discriminate].
  cbn [negb]. intros [= <-].
  rewrite length_concat_block16.
  - apply Nat.Div0.mod_mul.
  - apply cbc_decrypt_blocks_block16; [done..|]. by apply blocks_block16.
Qed.

(** Encryption followed by decryption, for any key that AES accepts and any
    plaintext whose encoding decodes to it. *)
Lemma decrypt_encrypt_token (self : EncryptionService) (p : ustr)
    (iv : string) (iv_bytes data : list byte) :
  aes_key_size_ok (key self) = true ->
  fromhex iv = Ok iv_bytes -> length iv_bytes = 16%nat ->
  encode p = Ok data -> decode data = Ok p ->
  exists ct, encrypt_token self p iv = Ok ct /\ decrypt_token self ct iv = Ok p.
Proof.
  intros Hk Hiv Hlen Hdata Hdec.
  destruct (_pad_length data) as (n & _ & _ & _ & Hmod).
  destruct (cbc_encrypt_ok (key self) iv_bytes (_pad data) Hk Hmod) as [ct Hct].
  exists (hex ct). unfold encrypt_token, decrypt_token.
  rewrite Hiv, Hlen, Hk, Hdata. cbn [Nat.eqb negb mbind result_bind].
  rewrite Hct. split; [reflexivity|].
  rewrite fromhex_hex. cbn [mbind result_bind]. rewrite Hlen. cbn [Nat.eqb negb].
  rewrite (cbc_decrypt_encrypt _ _ _ _ Hlen Hct). cbn [mbind result_bind].
  rewrite _unpad_pad. cbn [mbind result_bind]. exact Hdec.
Qed.

(** C1. For every plaintext string [p] (text: a sequence of Unicode scalar
    values), every key of 32 bytes and every IV that is the hexadecimal
    text of 16 bytes, [encrypt_token] returns a ciphertext and
    [decrypt_token] of that ciphertext under the same IV returns [p]
    exactly. The empty string, one-byte strings and strings of several
    blocks are instances. *)
Theorem encrypt_decrypt_roundtrip (self : EncryptionService) (p : ustr)
    (iv : string) (iv_bytes : list byte) :
  length (key self) = 32%nat ->
  fromhex iv = Ok iv_bytes -> length iv_bytes = 16%nat ->
  is_text p ->
  exists ct, encrypt_token self p iv = Ok ct /\ decrypt_token self ct iv = Ok p.
Proof.
  intros Hkey Hiv Hlen Hp.
  assert (Hk : aes_key_size_ok (key self) = true).
  { unfold aes_key_size_ok. by rewrite Hkey. }
  destruct (encode_is_text p Hp) as [data Hdata].
  pose proof (decode_encode p data Hp Hdata) as Hdec.
  exact (decrypt_encrypt_token self p iv iv_bytes data Hk Hiv Hlen Hdata Hdec).
Qed.

(** The three sizes that the specification names: the empty string, a
    string of one byte, and a string of 40 bytes (three blocks once
    padded). *)
Corollary encrypt_decrypt_roundtrip_sizes (self : EncryptionService)
    (iv : string) (iv_bytes : list byte) (p : ustr) :
  length (key self) = 32%nat ->
  fromhex iv = Ok iv_bytes -> length iv_bytes = 16%nat ->
  p = [] \/ p = ustr_of_string "x" \/
  p = ustr_of_string "0123456789abcdef0123456789abcdef01234567" ->
  exists ct, encrypt_token self p iv = Ok ct /\ decrypt_token self ct iv = Ok p.
Proof.
  intros Hkey Hiv Hlen Hp.
  assert (Hk : aes_key_size_ok (key self) = true).
  { unfold aes_key_size_ok. by rewrite Hkey. }
  assert (Ht : is_text p) by (destruct Hp as [-> | [-> | ->]]; repeat constructor).
  destruct (encode_is_text p Ht) as [data Hdata].
  apply (decrypt_encrypt_token self p iv iv_bytes data); try done.
  by apply decode_encode.
Qed.

(** Outside text the round trip does not start: a lone surrogate cannot be
    encoded, and [encrypt_token] raises [UnicodeEncodeError]. *)
Lemma encrypt_token_surrogate (self : EncryptionService) (c : N) (p : ustr)
    (iv : string) (iv_bytes : list byte) :
  length (key self) = 32%nat ->
  fromhex iv = Ok iv_bytes -> length iv_bytes = 16%nat ->
  is_surrogate c = true ->
  encrypt_token self (c :: p) iv = Raise UnicodeEncodeError.
Proof.
  intros Hkey Hiv Hlen Hc. unfold encrypt_token, aes_key_size_ok.
  rewrite Hiv, Hlen, Hkey. cbn [Nat.eqb negb orb].
  by rewrite encode_surrogate.
Qed.

(** C6. If the bytes that come out of the cipher end in a byte that is 0 or
    greater than 16, or if the trailing bytes that this last byte counts
    are not all equal to it, [decrypt_token] raises the padding error (its
    length or its bytes variant); it returns no plaintext. *)
Theorem decrypt_token_rejects_bad_padding (self : EncryptionService)
    (encrypted_token iv : string) (iv_bytes encrypted_bytes decrypted : list byte)
    (b : byte) :
  fromhex iv = Ok iv_bytes -> length iv_bytes = 16%nat ->
  fromhex encrypted_token = Ok encrypted_bytes ->
  cbc_decrypt (key self) iv_bytes encrypted_bytes = Ok decrypted ->
  last decrypted = Some b ->
  (Byte.to_nat b = 0 \/ 16 < Byte.to_nat b \/
   ~ Forall (eq b) (drop (length decrypted - Byte.to_nat b) decrypted))%nat ->
  decrypt_token self encrypted_token iv = Raise (ValueError InvalidPaddingLength) \/
  decrypt_token self encrypted_token iv = Raise (ValueError InvalidPaddingBytes).
Proof.
  intros Hiv Hlen Hct Hdec Hlast Hbad.
  assert (Hge : (Byte.to_nat b <= 16 -> Byte.to_nat b <= length decrypted)%nat).
  { pose proof (cbc_decrypt_whole_blocks _ _ _ _ Hlen Hdec) as Hmod.
    pose proof (Nat.div_mod_eq (length decrypted) 16).
    assert (0 < length decrypted)%nat by (destruct decrypted; [discriminate|simpl; lia]).
    lia. }
  unfold decrypt_token. rewrite Hiv, Hct. cbn [mbind result_bind].
  rewrite Hlen. cbn [Nat.eqb negb]. rewrite Hdec. cbn [mbind result_bind].
  rewrite (_unpad_spec _ _ Hlast Hge).
  destruct (Nat.ltb_spec 16 (Byte.to_nat b)); cbn [orb mbind result_bind]; [by left|].
  destruct (Nat.eqb_spec (Byte.to_nat b) 0); cbn [mbind result_bind]; [by left|].
  destruct Hbad as [?|[?|Hbad]]; [lia..|].
  destruct (padding_bytes_ok _ _ _) eqn:Hok; [|by right].
  exfalso. apply Hbad. apply padding_bytes_ok_trailing; [lia|done].
Qed.
End EncryptionFacts.

Lemma encrypt_decrypt_roundtrip_witness :
  length (key key32) = 32%nat /\
  fromhex iv0 = Ok (zeros 16) /\ length (zeros 16) = 16%nat /\
  is_text (ustr_of_string "rt-123") /\
  exists ct, @encrypt_token xor_backend key32 (ustr_of_string "rt-123") iv0 = Ok ct /\
             @decrypt_token xor_backend key32 ct iv0 = Ok (ustr_of_string "rt-123").
Proof.
  assert (Ht : is_text (ustr_of_string "rt-123")) by (repeat constructor).
  repeat split; try reflexivity; try exact Ht.
  apply (@encrypt_decrypt_roundtrip xor_backend key32 (ustr_of_string "rt-123") iv0 (zeros 16));
    [reflexivity | reflexivity | reflexivity | exact Ht].
Defined.

Lemma decrypt_token_rejects_bad_padding_witness :
  @decrypt_token xor_backend key32 (hex (zeros 16)) iv0
    = Raise (ValueError InvalidPaddingLength) \/
  @decrypt_token xor_backend key32 (hex (zeros 16)) iv0
    = Raise (ValueError InvalidPaddingBytes).
Proof.
  apply (@decrypt_token_rejects_bad_padding xor_backend key32 (hex (zeros 16)) iv0
           (zeros 16) (zeros 16) (zeros 16) x00);
    [reflexivity | reflexivity | reflexivity | reflexivity | reflexivity | left; reflexivity].
Defined.

(** ** Queries *)

Lemma length_insert_desc (r : AuthVault.t) (rows : table) :
  length (insert_desc r rows) = S (length rows).
Proof.
  induction rows as [|x rows IH]; [reflexivity|].
  cbn [insert_desc]. destruct (_ <? _)%Z; simpl; [reflexivity|]. by rewrite IH.
Qed.

Lemma length_order_by_created_at_desc (rows : table) :
  length (order_by_created_at_desc rows) = length rows.
Proof.
  induction rows as [|x rows IH]; [reflexivity|].
  unfold order_by_created_at_desc in *. cbn [foldr].
  by rewrite length_insert_desc, IH.
Qed.

(** What a single-row lookup answers, by the number of rows that the query
    selects: [None] for no row; for one row the validation of the loaded
    row fails; for more [scalar_one_or_none] fails. *)
Lemma lookup_outcome (rows : table) :
  (entry ← scalar_one_or_none rows; TokenVaultRepository.validate_loaded entry)
  = match rows with
    | [] => Ok None
    | [_] => Raise PydanticValidationError
    | _ => Raise MultipleResultsFound
    end.
Proof. by destruct rows as [|a [|b rows]]. Qed.

(** Ordering does not change what a single-row lookup answers. *)
Lemma lookup_outcome_ordered (rows : table) :
  (entry ← scalar_one_or_none (order_by_created_at_desc rows);
   TokenVaultRepository.validate_loaded entry)
  = (entry ← scalar_one_or_none rows; TokenVaultRepository.validate_loaded entry).
Proof.
  rewrite !lookup_outcome.
  pose proof (length_order_by_created_at_desc rows) as Hlen.
  destruct rows as [|a [|b rows]];
    destruct (order_by_created_at_desc _) as [|a' [|b' rows']];
    simpl in Hlen; try lia; reflexivity.
Qed.

Lemma get_by_user_id_rows (tbl : table) (user_id : uuid) (token_type : option TokenType) :
  TokenVaultRepository.get_by_user_id tbl user_id token_type
  = match rows_of_user user_id token_type tbl with
    | [] => Ok None
    | [_] => Raise PydanticValidationError
    | _ => Raise MultipleResultsFound
    end.
Proof.
  unfold TokenVaultRepository.get_by_user_id.
  rewrite lookup_outcome_ordered. apply lookup_outcome.
Qed.

Lemma get_by_session_state_id_rows (tbl : table) (session_state_id : string)
    (token_type : option TokenType) :
  TokenVaultRepository.get_by_session_state_id tbl session_state_id token_type
  = match filter (fun r => where_token_type token_type r = true)
            (filter (fun r => AuthVault.session_state_id r = session_state_id) tbl) with
    | [] => Ok None
    | [_] => Raise PydanticValidationError
    | _ => Raise MultipleResultsFound
    end.
Proof. apply lookup_outcome. Qed.

Lemma get_by_id_rows (tbl : table) (token_id : uuid) :
  TokenVaultRepository.get_by_id tbl token_id
  = match filter (fun r => AuthVault.id r = token_id) tbl with
    | [] => Ok None
    | [_] => Raise PydanticValidationError
    | _ => Raise MultipleResultsFound
    end.
Proof. apply lookup_outcome. Qed.

(** No single-row lookup ever returns a row. *)
Lemma get_by_user_id_never_found (tbl : table) (user_id : uuid)
    (token_type : option TokenType) (found : option TokenVaultEntry.t) :
  TokenVaultRepository.get_by_user_id tbl user_id token_type = Ok found ->
  found = None /\ rows_of_user user_id token_type tbl = [].
Proof.
  rewrite get_by_user_id_rows.
  destruct (rows_of_user user_id token_type tbl) as [|a [|b l]]; try discriminate.
  by intros [= <-].
Qed.

Lemma get_by_session_state_id_never_found (tbl : table) (session_state_id : string)
    (token_type : option TokenType) (found : option TokenVaultEntry.t) :
  TokenVaultRepository.get_by_session_state_id tbl session_state_id token_type = Ok found ->
  found = None.
Proof.
  rewrite get_by_session_state_id_rows.
  destruct (filter _ _) as [|a [|b l]]; try discriminate. by intros [= <-].
Qed.

Lemma get_by_id_never_found (tbl : table) (token_id : uuid)
    (found : option TokenVaultEntry.t) :
  TokenVaultRepository.get_by_id tbl token_id = Ok found ->
  found = None /\ filter (fun r => AuthVault.id r = token_id) tbl = [].
Proof.
  rewrite get_by_id_rows.
  destruct (filter _ _) as [|a [|b l]]; try discriminate. by intros [= <-].
Qed.

Lemma rows_of_user_app (u : uuid) (t : option TokenType) (tbl1 tbl2 : table) :
  rows_of_user u t (tbl1 ++ tbl2) = rows_of_user u t tbl1 ++ rows_of_user u t tbl2.
Proof. unfold rows_of_user. by rewrite !filter_app. Qed.

Lemma length_rows_of_user_le (u : uuid) (t : option TokenType) (tbl : table) :
  (length (rows_of_user u t tbl) <= length tbl)%nat.
Proof.
  unfold rows_of_user.
  etransitivity; [apply length_filter|apply length_filter].
Qed.

Lemma rows_of_user_other (u : uuid) (t : option TokenType) (r : AuthVault.t) :
  AuthVault.user_id r <> u -> rows_of_user u t [r] = [].
Proof.
  intros Hne. unfold rows_of_user. rewrite filter_cons.
  destruct (decide (AuthVault.user_id r = u)); [done|reflexivity].
Qed.

Lemma rows_of_user_singleton (u : uuid) (t : TokenType) (r : AuthVault.t) :
  AuthVault.user_id r = u -> AuthVault.token_type r = t ->
  rows_of_user u (Some t) [r] = [r].
Proof.
  intros Hu Ht. unfold rows_of_user.
  rewrite filter_cons, decide_True, filter_nil by done.
  rewrite filter_cons, decide_True, filter_nil; [done|].
  cbn [where_token_type]. by rewrite bool_decide_eq_true.
Qed.

Lemma one_refresh_per_user_nil : one_refresh_per_user [].
Proof. intros u. simpl. lia. Qed.

Lemma existsb_id_free (new_id : uuid) (tbl : table) :
  id_free new_id tbl -> existsb (fun r => N.eqb (AuthVault.id r) new_id) tbl = false.
Proof.
  induction 1 as [|r tbl Hr _ IH]; [reflexivity|].
  cbn [existsb]. rewrite IH. by apply N.eqb_neq in Hr as ->.
Qed.

Lemma id_free_existsb (new_id : uuid) (tbl : table) :
  existsb (fun r => N.eqb (AuthVault.id r) new_id) tbl = false -> id_free new_id tbl.
Proof.
  intros Ex. apply Forall_forall. intros r Hr Heq.
  assert (existsb (fun r => N.eqb (AuthVault.id r) new_id) tbl = true); [|congruence].
  apply existsb_exists. exists r. split; [by apply list_elem_of_In|by apply N.eqb_eq].
Qed.

Lemma filter_id_free (new_id : uuid) (tbl : table) :
  id_free new_id tbl -> filter (fun r => AuthVault.id r = new_id) tbl = [].
Proof.
  induction 1 as [|r tbl Hr _ IH]; [reflexivity|].
  rewrite filter_cons. by destruct (decide (AuthVault.id r = new_id)).
Qed.

(** What [create] does when it returns: one row is appended, with the
    metadata column NULL; the entry returned shows that row and, as its
    metadata, the value that was given. *)
Lemma create_Ok_inv (tbl tbl1 : table) (new_id : uuid) (now : Z) (user : uuid)
    (t : TokenType) (ct iv h sid : string) (md : option (gmap string jval))
    (entry : TokenVaultEntry.t) :
  TokenVaultRepository.create tbl new_id now user t ct iv h sid md = Ok (entry, tbl1) ->
  id_free new_id tbl /\ is_UUID4 new_id = true /\ is_UUID4 user = true /\
  tbl1 = tbl ++ [AuthVault.mk new_id user t (Some ct) (Some iv) (Some h) None sid now None] /\
  entry = TokenVaultEntry.mk new_id user t (Some ct) (Some iv) (Some h) md sid now None.
Proof.
  unfold TokenVaultRepository.create.
  destruct (existsb _ tbl) eqn:Ex; [discriminate|].
  unfold model_validate. cbn [AuthVault.id AuthVault.user_id].
  destruct (is_UUID4 new_id); [|discriminate].
  destruct (is_UUID4 user); [|discriminate].
  cbn. intros [= <- <-]. repeat split. by apply id_free_existsb.
Qed.

Lemma create_Ok (tbl : table) (new_id : uuid) (now : Z) (user : uuid)
    (t : TokenType) (ct iv h sid : string) (md : option (gmap string jval)) :
  id_free new_id tbl -> is_UUID4 new_id = true -> is_UUID4 user = true ->
  TokenVaultRepository.create tbl new_id now user t ct iv h sid md
  = Ok (TokenVaultEntry.mk new_id user t (Some ct) (Some iv) (Some h) md sid now None,
        tbl ++ [AuthVault.mk new_id user t (Some ct) (Some iv) (Some h) None sid now None]).
Proof.
  intros Hfree Hid Hu. unfold TokenVaultRepository.create, model_validate.
  rewrite (existsb_id_free _ _ Hfree). cbn [AuthVault.id AuthVault.user_id].
  by rewrite Hid, Hu.
Qed.

Section RepositoryFacts.
Context `{UuidLib} `{UpdateLib}.

(** The outcome of the repository's upsert, by what the lookup finds. *)
Lemma repository_upsert_existing (tbl : table) (new_id : uuid) (now : Z) (user : uuid)
    (ct iv h sid : string) (md : option (gmap string jval)) (existing : AuthVault.t) :
  rows_of_user user (Some REFRESH) tbl = [existing] ->
  TokenVaultRepository.upsert_refresh_token tbl new_id now user ct iv h sid md
  = Raise PydanticValidationError.
Proof.
  intros E. unfold TokenVaultRepository.upsert_refresh_token.
  by rewrite get_by_user_id_rows, E.
Qed.

Lemma repository_upsert_absent (tbl : table) (new_id : uuid) (now : Z) (user : uuid)
    (ct iv h sid : string) (md : option (gmap string jval)) :
  rows_of_user user (Some REFRESH) tbl = [] -> id_free new_id tbl ->
  is_UUID4 new_id = true -> is_UUID4 user = true ->
  TokenVaultRepository.upsert_refresh_token tbl new_id now user ct iv h sid md
  = Ok (uuid_str new_id,
        tbl ++ [AuthVault.mk new_id user REFRESH (Some ct) (Some iv) (Some h) None sid
                  now None]).
Proof.
  intros E Hfree Hid Hu. unfold TokenVaultRepository.upsert_refresh_token.
  rewrite get_by_user_id_rows, E. cbn [mbind result_bind].
  by rewrite create_Ok.
Qed.

(** An upsert that returns found no refresh row of the user and appended
    one. *)
Lemma repository_upsert_Ok_inv (tbl tbl' : table) (new_id : uuid) (now : Z)
    (user : uuid) (ct iv h sid : string) (md : option (gmap string jval)) (r : string) :
  TokenVaultRepository.upsert_refresh_token tbl new_id now user ct iv h sid md
    = Ok (r, tbl') ->
  rows_of_user user (Some REFRESH) tbl = [] /\ r = uuid_str new_id /\
  tbl' = tbl ++ [AuthVault.mk new_id user REFRESH (Some ct) (Some iv) (Some h) None sid
                   now None].
Proof.
  unfold TokenVaultRepository.upsert_refresh_token. rewrite get_by_user_id_rows.
  destruct (rows_of_user user (Some REFRESH) tbl) as [|a [|b l]]; try discriminate.
  cbn [mbind result_bind].
  destruct (TokenVaultRepository.create _ _ _ _ _ _ _ _ _ _) as [[entry tbl1]|] eqn:E;
    [|discriminate].
  apply create_Ok_inv in E as (_ & _ & _ & -> & ->).
  cbn. by intros [= <- <-].
Qed.

Lemma repository_upsert_preserves (tbl tbl' : table) (new_id : uuid) (now : Z)
    (user : uuid) (ct iv h sid : string) (md : option (gmap string jval)) (r : string) :
  TokenVaultRepository.upsert_refresh_token tbl new_id now user ct iv h sid md
    = Ok (r, tbl') ->
  one_refresh_per_user tbl -> one_refresh_per_user tbl'.
Proof.
  intros E Hinv u. apply repository_upsert_Ok_inv in E as (Erows & _ & ->).
  rewrite rows_of_user_app, length_app.
  destruct (decide (u = user)) as [->|Hne].
  - rewrite Erows. pose proof (length_rows_of_user_le user (Some REFRESH)
      [AuthVault.mk new_id user REFRESH (Some ct) (Some iv) (Some h) None sid now None]).
    simpl in *. lia.
  - specialize (Hinv u). rewrite rows_of_user_other by (cbn; congruence).
    simpl. lia.
Qed.

End RepositoryFacts.

Lemma decode_raises (bs : list byte) (e : exn) :
  decode bs = Raise e -> e = UnicodeDecodeError.
Proof.
  remember (length bs) as n eqn:Hn. revert bs Hn.
  induction n as [n IH] using lt_wf_ind. intros bs Hn.
  assert (Hrec : forall r, (length r < n)%nat -> decode r = Raise e -> e = UnicodeDecodeError).
  { intros r Hr. by apply (IH (length r)). }
  assert (Hbind : forall r (c : N), (length r < n)%nat ->
            (cs ← decode r; Ok (c :: cs)) = Raise e -> e = UnicodeDecodeError).
  { intros r c Hr E. destruct (decode r) eqn:Er; [discriminate|].
    cbn in E. injection E as <-. by apply (Hrec r). }
  destruct bs as [|b0 r0]; [discriminate|]. cbn [decode].
  repeat match goal with
         | |- context [if ?c then _ else _] => destruct c
         | |- context [match ?l with [] => _ | _ :: _ => _ end] => destruct l
         end;
    try (intros [= <-]; reflexivity);
    apply Hbind; subst n; simpl; lia.
Qed.

(** ** The vault service: reading *)

Section ServiceFacts.
Context `{CryptoBackend} `{UuidLib}.
Variable encryption : EncryptionService.

(** What the three reading operations of the service answer, by the rows
    that their queries select. The ciphertext of a row is never looked at:
    a row that is found fails the validation before. *)
Lemma get_by_user_id_outcome (tbl : table) (user_id : uuid)
    (token_type : option TokenType) :
  TokenVaultService.get_by_user_id encryption tbl user_id token_type
  = match rows_of_user user_id token_type tbl with
    | [] => Ok None
    | [_] => Raise PydanticValidationError
    | _ => Raise MultipleResultsFound
    end.
Proof.
  unfold TokenVaultService.get_by_user_id. rewrite get_by_user_id_rows.
  by destruct (rows_of_user user_id token_type tbl) as [|a [|b l]].
Qed.

Lemma get_by_session_state_outcome (tbl : table) (session_state_id : string)
    (token_type : option TokenType) :
  TokenVaultService.get_by_session_state encryption tbl session_state_id token_type
  = match filter (fun r => where_token_type token_type r = true)
            (filter (fun r => AuthVault.session_state_id r = session_state_id) tbl) with
    | [] => Ok None
    | [_] => Raise PydanticValidationError
    | _ => Raise MultipleResultsFound
    end.
Proof.
  unfold TokenVaultService.get_by_session_state. rewrite get_by_session_state_id_rows.
  by destruct (filter _ (filter _ tbl)) as [|a [|b l]].
Qed.

Lemma retrieve_and_decrypt_outcome (tbl : table) (token_id : uuid) :
  TokenVaultService.retrieve_and_decrypt encryption tbl token_id
  = match filter (fun r => AuthVault.id r = token_id) tbl with
    | [] => Raise (TokenNotFoundError ("Token " +:+ uuid_str token_id +:+ " not found"))
    | [_] => Raise PydanticValidationError
    | _ => Raise MultipleResultsFound
    end.
Proof.
  unfold TokenVaultService.retrieve_and_decrypt. rewrite get_by_id_rows.
  by destruct (filter _ tbl) as [|a [|b l]].
Qed.

End ServiceFacts.

(** ** The vault service: storing and upserting *)

Section UpsertFacts.
Context `{CryptoBackend} `{UuidLib} `{UpdateLib}.
Variable encryption : EncryptionService.

(** An upsert of the service that returns found no refresh row of the user
    and appended one, whose metadata column is NULL. *)
Lemma service_upsert_Ok_inv (tbl tbl' : table) (env : Env) (user : uuid)
    (token : ustr) (sid : string) (md : option (gmap string jval)) (r : string) :
  TokenVaultService.upsert_refresh_token encryption tbl env user token sid md
    = Ok (r, tbl') ->
  rows_of_user user (Some REFRESH) tbl = [] /\ r = uuid_str (uuid4 env) /\
  exists ct h,
    encrypt_token encryption token (generate_iv (rand env)) = Ok ct /\
    hash_token token = Ok h /\
    tbl' = tbl ++ [AuthVault.mk (uuid4 env) user REFRESH (Some ct)
                     (Some (generate_iv (rand env))) (Some h) None sid (now env) None].
Proof.
  unfold TokenVaultService.upsert_refresh_token.
  destruct (encrypt_token _ _ _) as [ct|] eqn:Ect; [|discriminate].
  destruct (hash_token _) as [h|] eqn:Eh; [|discriminate].
  cbn [mbind result_bind]. intros E.
  apply repository_upsert_Ok_inv in E as (Erows & -> & ->).
  repeat split; [done|]. by exists ct, h.
Qed.

Lemma service_upsert_preserves (tbl tbl' : table) (env : Env) (user : uuid)
    (token : ustr) (sid : string) (md : option (gmap string jval)) (r : string) :
  TokenVaultService.upsert_refresh_token encryption tbl env user token sid md
    = Ok (r, tbl') ->
  one_refresh_per_user tbl -> one_refresh_per_user tbl'.
Proof.
  unfold TokenVaultService.upsert_refresh_token.
  destruct (encrypt_token _ _ _) as [ct|]; [|discriminate].
  destruct (hash_token _) as [h|]; [|discriminate].
  cbn [mbind result_bind]. apply repository_upsert_preserves.
Qed.

Lemma run_upserts_preserves (tbl : table) (requests : list upsert_request) :
  one_refresh_per_user tbl ->
  one_refresh_per_user (run_upserts encryption tbl requests).
Proof.
  revert tbl. induction requests as [|q requests IH]; intros tbl Hinv; [exact Hinv|].
  cbn [run_upserts].
  destruct (TokenVaultService.upsert_refresh_token _ _ _ _ _ _ _) as [[r tbl']|] eqn:E.
  - apply IH. by apply (service_upsert_preserves _ _ _ _ _ _ _ _ E).
  - by apply IH.
Qed.

(** What a successful [store_token] leaves: one more row, whose metadata
    column is NULL, and an entry that shows the row with the metadata
    given. *)
Lemma store_token_rows (tbl tbl1 : table) (env : Env) (user : uuid) (token : ustr)
    (t : TokenType) (sid : string) (md : option (gmap string jval))
    (entry : TokenVaultEntry.t) :
  TokenVaultService.store_token encryption tbl env user token t sid md
    = Ok (entry, tbl1) ->
  exists ct h,
    encrypt_token encryption token (generate_iv (rand env)) = Ok ct /\
    hash_token token = Ok h /\
    id_free (uuid4 env) tbl /\ is_UUID4 (uuid4 env) = true /\ is_UUID4 user = true /\
    tbl1 = tbl ++ [AuthVault.mk (uuid4 env) user t (Some ct)
                     (Some (generate_iv (rand env))) (Some h) None sid (now env) None] /\
    entry = TokenVaultEntry.mk (uuid4 env) user t (Some ct)
              (Some (generate_iv (rand env))) (Some h) md sid (now env) None.
Proof.
  unfold TokenVaultService.store_token.
  destruct (encrypt_token _ _ _) as [ct|] eqn:Ect; [|discriminate].
  destruct (hash_token _) as [h|] eqn:Eh; [|discriminate].
  cbn [mbind result_bind]. intros E.
  apply create_Ok_inv in E as (Hfree & Hid & Hu & -> & ->).
  by exists ct, h.
Qed.

End UpsertFacts.
(** ** Concrete runs of the vault *)

(** Two offline entries of one user, as two offline grants leave them. *)
Definition two_offline_entries : table :=
  let tbl1 := table_after []
    (@TokenVaultService.store_token xor_backend key32 [] env1 user_7 rt_123 OFFLINE
       "s1" None) in
  table_after tbl1
    (@TokenVaultService.store_token xor_backend key32 tbl1 env2 user_7 rt_456 OFFLINE
       "s1" None).

(** C7 at its failing input: with two matching entries [get_by_user_id]
    raises [MultipleResultsFound], with or without the type filter, instead
    of answering the newer entry (the one created at 200, "rt-456"). *)
Example get_by_user_id_two_entries :
  (AuthVault.created_at <$> two_offline_entries) = [100%Z; 200%Z] /\
  @TokenVaultService.get_by_user_id xor_backend key32 two_offline_entries user_7
    (Some OFFLINE) = Raise MultipleResultsFound /\
  @TokenVaultService.get_by_user_id xor_backend key32 two_offline_entries user_7 None
    = Raise MultipleResultsFound.
Proof. vm_compute. repeat split. Qed.

(** The table with one offline entry for session ["s1"], as a successful
    [store_token] leaves it. *)
Definition one_offline_entry : table :=
  table_after []
    (@TokenVaultService.store_token xor_backend key32 [] env1 user_7 rt_123 OFFLINE
       "s1" None).

(** The table with one refresh entry of the user. *)
Definition one_refresh_entry : table :=
  table_after []
    (@TokenVaultService.store_token xor_backend key32 [] env1 user_7 rt_123 REFRESH
       "s1" None).


(** C3 at its failing input. On an empty vault [upsert_refresh_token]
    creates the user's refresh entry and returns its id. Once the user has
    a refresh entry, stored or upserted, the next upsert does not overwrite
    it: the lookup of the existing entry raises pydantic's
    [ValidationError] and the table stays as it was, with the old
    ciphertext. *)
Example upsert_refresh_token_existing_raises :
  (AuthVault.user_id <$> one_refresh_entry) = [user_7] /\
  @TokenVaultService.upsert_refresh_token xor_backend canonical_uuid update_unreached
    key32 one_refresh_entry env2 user_7 rt_456 "s2" None
    = Raise PydanticValidationError /\
  (let upserted :=
     @TokenVaultService.upsert_refresh_token xor_backend canonical_uuid update_unreached
       key32 [] env1 user_7 rt_123 "s1" None in
   (match upserted with Ok (i, _) => Some i | Raise _ => None end)
     = Some "00000000-0000-4000-8000-000000000001" /\
   (AuthVault.user_id <$> table_after [] upserted) = [user_7] /\
   @TokenVaultService.upsert_refresh_token xor_backend canonical_uuid update_unreached
     key32 (table_after [] upserted) env2 user_7 rt_456 "s2" None
     = Raise PydanticValidationError).
Proof. vm_compute. repeat split. Qed.

(** C10 at its failing input. With the single matching row lacking its
    ciphertext and IV, [get_by_user_id] and [get_by_session_state] do not
    answer [None] as they do for an empty table: the lookup raises
    pydantic's [ValidationError] before the service tests the ciphertext. *)
Example get_by_unreadable_row_raises :
  @TokenVaultService.get_by_user_id xor_backend key32 [unreadable_row] user_7
    (Some OFFLINE) = Raise PydanticValidationError /\
  @TokenVaultService.get_by_session_state xor_backend key32 [unreadable_row] "s1"
    (Some OFFLINE) = Raise PydanticValidationError /\
  @TokenVaultService.get_by_user_id xor_backend key32 [] user_7 (Some OFFLINE)
    = Ok None /\
  @TokenVaultService.get_by_session_state xor_backend key32 [] "s1" (Some OFFLINE)
    = Ok None.
Proof. vm_compute. repeat split. Qed.

(** ** The state token *)

Section StateTokenFacts.
Context `{JwtLib}.
Variable secret_key : string.

Lemma payload_to_state_raises (payload : gmap string jval) (e : exn) :
  StateTokenService.payload_to_state payload = Raise e ->
  is_auth_manager_error e = true -> code e = Some "invalid_state_token".
Proof.
  unfold StateTokenService.payload_to_state.
  destruct (payload !! "user_id") as [u|]; [|by intros [= <-]].
  destruct (payload !! "session_state_id") as [s|]; [|by intros [= <-]].
  destruct u, s; cbn; intros [= <-]; discriminate.
Qed.

(** C4, as the code has it. [parse_state_token] raises one kind of error,
    [InvalidStateTokenError] (code ["invalid_state_token"]), for an expired
    token, for a bad signature or malformed token, and for a payload that
    lacks [user_id] or [session_state_id]; the message alone tells which.
    When [jwt.decode] accepts the token and both claims are strings, it
    returns them. *)
Theorem parse_state_token_outcomes (now : Z) (token : string) :
  (jwt_decode token secret_key now = ExpiredSignatureError ->
   StateTokenService.parse_state_token secret_key now token
     = Raise (InvalidStateTokenError "State token has expired")) /\
  (forall msg,
     jwt_decode token secret_key now = InvalidTokenError msg ->
     StateTokenService.parse_state_token secret_key now token
       = Raise (InvalidStateTokenError ("Invalid state token: " +:+ msg))) /\
  (forall payload,
     jwt_decode token secret_key now = JwtPayload payload ->
     payload !! "user_id" = None \/ payload !! "session_state_id" = None ->
     exists missing,
       StateTokenService.parse_state_token secret_key now token
         = Raise (InvalidStateTokenError
                    ("Missing required field in state token: '" +:+ missing +:+ "'"))) /\
  (forall payload u s,
     jwt_decode token secret_key now = JwtPayload payload ->
     payload !! "user_id" = Some (JStr u) ->
     payload !! "session_state_id" = Some (JStr s) ->
     StateTokenService.parse_state_token secret_key now token
       = Ok (StateTokenPayload.mk u s)) /\
  (forall e,
     StateTokenService.parse_state_token secret_key now token = Raise e ->
     is_auth_manager_error e = true -> code e = Some "invalid_state_token").
Proof.
  unfold StateTokenService.parse_state_token. repeat split.
  - by intros ->.
  - by intros msg ->.
  - intros payload -> Hmissing. unfold StateTokenService.payload_to_state.
    destruct (payload !! "user_id") as [u|]; [|by exists "user_id"].
    destruct Hmissing as [?| ->]; [discriminate|]. by exists "session_state_id".
  - intros payload u s -> Hu Hs. unfold StateTokenService.payload_to_state.
    by rewrite Hu, Hs.
  - intros e. destruct (jwt_decode token secret_key now).
    + apply payload_to_state_raises.
    + by intros [= <-].
    + by intros [= <-].
Qed.
End StateTokenFacts.

(** C4 fails as stated: an expired token, a token with a bad signature and a
    payload without [user_id] all raise the same kind of error. *)
Lemma parse_state_token_single_error_kind :
  @StateTokenService.parse_state_token (jwt_answering ExpiredSignatureError) "k" 700 "t"
    = Raise (InvalidStateTokenError "State token has expired") /\
  @StateTokenService.parse_state_token
     (jwt_answering (InvalidTokenError "Signature verification failed")) "k" 700 "t"
    = Raise (InvalidStateTokenError "Invalid state token: Signature verification failed") /\
  @StateTokenService.parse_state_token
     (jwt_answering (JwtPayload (<["session_state_id" := JStr "s1"]> ∅))) "k" 700 "t"
    = Raise (InvalidStateTokenError "Missing required field in state token: 'user_id'") /\
  code (InvalidStateTokenError "State token has expired")
    = code (InvalidStateTokenError "Invalid state token: Signature verification failed") /\
  code (InvalidStateTokenError "State token has expired")
    = code (InvalidStateTokenError "Missing required field in state token: 'user_id'").
Proof. repeat split. Qed.

Lemma parse_state_token_outcomes_witness :
  @StateTokenService.parse_state_token
     (jwt_answering (JwtPayload (state_payload "07" "s1" 100 700))) "k" 500 "t"
    = Ok (StateTokenPayload.mk "07" "s1").
Proof.
  destruct (@parse_state_token_outcomes
              (jwt_answering (JwtPayload (state_payload "07" "s1" 100 700))) "k" 500 "t")
    as (_ & _ & _ & Hok & _).
  apply (Hok (state_payload "07" "s1" 100 700)); reflexivity.
Defined.

(** ** The endpoints *)
(** ** The endpoints *)

Section EndpointFacts.
Context `{CryptoBackend} `{UuidLib} `{UpdateLib} `{JwtLib}.
Variable keycloak : KeycloakService.
Variable state_token_secret : string.
Variable encryption : EncryptionService.

(** The callback fails at once on the provider's [error] parameter, before
    any collaborator is called. *)
Lemma offline_token_callback_error (env : Env) (code state error : string) (w : world) :
  error <> "" ->
  Endpoints.offline_token_callback keycloak state_token_secret encryption env
    code state (Some error) w
  = (Raise (KeycloakError ("Keycloak returned error: " +:+ error) 400), w).
Proof.
  intros Hne. unfold Endpoints.offline_token_callback, truthy.
  destruct (String.eqb_spec error ""); [done|reflexivity].
Qed.

(** A state token that does not parse stops the callback there. *)
Lemma offline_token_callback_bad_state (env : Env) (code state : string)
    (error : option string) (e : exn) (w : world) :
  truthy error = None ->
  StateTokenService.parse_state_token state_token_secret (now env) state = Raise e ->
  Endpoints.offline_token_callback keycloak state_token_secret encryption env
    code state error w
  = (Raise e, {| db := db w; calls := calls w ++ [call_parse_state_token] |}).
Proof.
  intros Herr Hparse. unfold Endpoints.offline_token_callback.
  rewrite Herr. unfold mbind, flow_bind, external. by rewrite Hparse.
Qed.

(** Past the code exchange the callback always raises [TypeError]: it
    never stores a token and never returns. *)
Lemma offline_token_callback_after_exchange (env : Env) (code state : string)
    (error : option string) (state_payload : StateTokenPayload.t)
    (token_response : KeycloakTokenResponse.t) (w : world) :
  truthy error = None ->
  StateTokenService.parse_state_token state_token_secret (now env) state
    = Ok state_payload ->
  Keycloak.exchange_code_for_token keycloak code (redirect_uri keycloak)
    = Ok token_response ->
  Endpoints.offline_token_callback keycloak state_token_secret encryption env
    code state error w
  = (Raise (TypeError "guard_not_none() takes 2 positional arguments but 3 were given"),
     {| db := db w;
        calls := (calls w ++ [call_parse_state_token]) ++ [call_exchange_code_for_token] |}).
Proof.
  intros Herr Hparse Hex. unfold Endpoints.offline_token_callback.
  rewrite Herr. unfold mbind, flow_bind, external, lift. cbn.
  by rewrite Hparse, Hex.
Qed.

Lemma offline_token_callback_never_returns (env : Env) (code state : string)
    (error : option string) (w w' : world) (a : OfflineTokenResponse.t) :
  Endpoints.offline_token_callback keycloak state_token_secret encryption env
    code state error w <> (Ok a, w').
Proof.
  unfold Endpoints.offline_token_callback.
  destruct (truthy error); [discriminate|].
  unfold mbind, flow_bind, external, lift. cbn.
  destruct (StateTokenService.parse_state_token _ _ _); [|discriminate].
  destruct (Keycloak.exchange_code_for_token _ _ _); discriminate.
Qed.

Lemma generate_offline_token_never_returns (env : Env) (token : string)
    (w w' : world) (a : OfflineTokenResponse.t) :
  Endpoints.generate_offline_token keycloak encryption env token w <> (Ok a, w').
Proof.
  unfold Endpoints.generate_offline_token.
  unfold mbind, flow_bind, external, lift, vault_read. cbn.
  destruct (Keycloak.introspect_token _ _) as [info|]; [|discriminate].
  destruct (guard_condition _ _ _); [|discriminate].
  destruct (guard_not_none (TokenIntrospection.sub info) _); [|discriminate].
  destruct (guard_not_none (TokenIntrospection.session_state info) _); [|discriminate].
  destruct (TokenVaultService.get_by_session_state _ _ _ _) as [[[entry tok]|]|];
    cbn; [|discriminate..].
  destruct (Keycloak.request_offline_token _ _); discriminate.
Qed.

(** The renewal never writes: whatever it does, the table of the world it
    leaves is the table it found. *)
Lemma generate_offline_token_keeps_table (env : Env) (token : string) (w : world) :
  db (snd (Endpoints.generate_offline_token keycloak encryption env token w)) = db w.
Proof.
  unfold Endpoints.generate_offline_token.
  unfold mbind, flow_bind, external, lift, vault_read. cbn.
  destruct (Keycloak.introspect_token _ _) as [info|]; [|reflexivity].
  destruct (guard_condition _ _ _); [|reflexivity].
  destruct (guard_not_none (TokenIntrospection.sub info) _); [|reflexivity].
  destruct (guard_not_none (TokenIntrospection.session_state info) _); [|reflexivity].
  destruct (TokenVaultService.get_by_session_state _ _ _ _) as [[[entry tok]|]|];
    cbn; [|reflexivity..].
  destruct (Keycloak.request_offline_token _ _); reflexivity.
Qed.

(** The rotation looks the user's token up as soon as introspection names
    a subject that parses as a UUID: neither [active] nor [session_state]
    is consulted first. *)
Lemma make_new_refresh_token_id_lookup (env : Env) (token : string) (w : world)
    (token_info : TokenIntrospection.t) (user_id : string) (user_uuid : uuid) :
  Keycloak.introspect_token keycloak token = Ok token_info ->
  TokenIntrospection.sub token_info = Some user_id ->
  UUID user_id = Ok user_uuid ->
  call_get_by_user_id
    ∈ calls (snd (Endpoints.make_new_refresh_token_id keycloak encryption env token w)).
Proof.
  intros Hint Hsub Huuid. unfold Endpoints.make_new_refresh_token_id.
  unfold mbind, flow_bind, external, lift, vault_read. cbn.
  rewrite Hint, Hsub. cbn. rewrite Huuid.
  destruct (TokenVaultService.get_by_user_id _ _ _ _) as [[[entry tok]|]|]; cbn;
    [|set_solver..].
  destruct (truthy (TokenVaultEntry.encrypted_token entry)); [|cbn; set_solver].
  destruct (truthy (TokenVaultEntry.iv entry)); [|cbn; set_solver].
  destruct (Keycloak.refresh_access_token _ _); cbn; set_solver.
Qed.
End EndpointFacts.

(** ** The endpoints, run *)

(** C5 at its failing inputs. An introspection that says [active = false]
    does not stop the rotation: with a subject it goes on to the vault
    lookup and fails there for want of a stored token, and without one (the
    provider's usual answer for an inactive token) it fails on the missing
    claim; the renewal, its sibling, stops with [token_not_active] before
    any lookup. An introspection without [session_state] does not stop it
    either: it goes on to the vault lookup, which, the user having a
    refresh entry, fails in the validation of the loaded row. *)
Example make_new_refresh_token_id_skips_validation :
  run_request
    (@Endpoints.make_new_refresh_token_id xor_backend canonical_uuid update_unreached
       (provider (TokenIntrospection.mk false (Some user_7_text) (Some "s1"))
          (tokens_with (Some rt_456)))
       key32 env2 "bearer") []
  = (Raise (InvalidRequestError "No session nor was found"), [],
     [call_introspect_token; call_get_by_user_id]) /\
  run_request
    (@Endpoints.make_new_refresh_token_id xor_backend canonical_uuid update_unreached
       (provider (TokenIntrospection.mk false None None) (tokens_with (Some rt_456)))
       key32 env2 "bearer") []
  = (Raise (ValidationError "Token missing required claim: sub"), [],
     [call_introspect_token]) /\
  run_request
    (@Endpoints.generate_offline_token xor_backend canonical_uuid
       (provider (TokenIntrospection.mk false (Some user_7_text) (Some "s1"))
          (tokens_with (Some rt_456)))
       key32 env2 "bearer") []
  = (Raise (AuthManagerError "Access token is not active" "token_not_active"), [],
     [call_introspect_token]) /\
  run_request
    (@Endpoints.make_new_refresh_token_id xor_backend canonical_uuid update_unreached
       (provider (TokenIntrospection.mk true (Some user_7_text) None)
          (tokens_with (Some rt_456)))
       key32 env2 "bearer") one_refresh_entry
  = (Raise PydanticValidationError, one_refresh_entry,
     [call_introspect_token; call_get_by_user_id]) /\
  (AuthVault.user_id <$> one_refresh_entry) = [user_7].
Proof. vm_compute. repeat split. Qed.

(** C8 at its failing inputs. With a state token that parses and a code that
    the provider exchanges, the callback raises [TypeError] at the guard on
    the refresh token: when the provider sent a refresh token nothing is
    stored and nothing returned, and when it sent none the error is not the
    provider error. *)
Example offline_token_callback_raises_TypeError :
  run_request
    (@Endpoints.offline_token_callback xor_backend canonical_uuid
       (jwt_answering (JwtPayload (state_payload "07" "s1" 100 700)))
       (provider (TokenIntrospection.mk true (Some "07") (Some "s1"))
          (tokens_with (Some rt_456)))
       "k" key32 env2 "code-1" "state-1" None) []
  = (Raise the_TypeError, [], [call_parse_state_token; call_exchange_code_for_token]) /\
  run_request
    (@Endpoints.offline_token_callback xor_backend canonical_uuid
       (jwt_answering (JwtPayload (state_payload "07" "s1" 100 700)))
       (provider (TokenIntrospection.mk true (Some "07") (Some "s1"))
          (tokens_with None))
       "k" key32 env2 "code-1" "state-1" None) []
  = (Raise the_TypeError, [], [call_parse_state_token; call_exchange_code_for_token]).
Proof. vm_compute. repeat split. Qed.

(** C9 at its failing input. With an active token, both claims, an offline
    entry for the session and a provider that would issue a new offline
    token, the renewal creates nothing: the lookup of the session's entry
    raises pydantic's [ValidationError], the provider is not asked, and the
    table holds the old entry alone. On a vault without an entry for the
    session the renewal fails with [TokenNotFoundError]. *)
Example generate_offline_token_never_renews :
  run_request
    (@Endpoints.generate_offline_token xor_backend canonical_uuid
       (provider (TokenIntrospection.mk true (Some user_7_text) (Some "s1"))
          (tokens_with (Some rt_456)))
       key32 env2 "bearer") one_offline_entry
  = (Raise PydanticValidationError, one_offline_entry,
     [call_introspect_token; call_get_by_session_state]) /\
  (AuthVault.session_state_id <$> one_offline_entry) = ["s1"] /\
  run_request
    (@Endpoints.generate_offline_token xor_backend canonical_uuid
       (provider (TokenIntrospection.mk true (Some user_7_text) (Some "s1"))
          (tokens_with (Some rt_456)))
       key32 env2 "bearer") []
  = (Raise (TokenNotFoundError "No offline token was found to generate a new one"), [],
     [call_introspect_token; call_get_by_session_state]).
Proof. vm_compute. repeat split. Qed.

(* ===================================================================== *)
(** * Part IV. Further properties of the embedded code                   *)
(* ===================================================================== *)

(** ** Padding: more of [_pad] and [_unpad] *)

Lemma _pad_shape (data : list byte) :
  exists n, (1 <= n <= 16)%nat /\ n = (16 - length data mod 16)%nat /\
    _pad data = data ++ replicate n (bN (N.of_nat n)) /\
    length (_pad data) = (16 * (length data / 16 + 1))%nat.
Proof.
  destruct (_pad_length data) as (n & Hn & En & Hlen & _).
  exists n. repeat split; try lia.
  - unfold _pad. by rewrite <- En.
  - pose proof (Nat.div_mod_eq (length data) 16).
    pose proof (Nat.mod_upper_bound (length data) 16 ltac:(lia)). lia.
Qed.

(** The loop of [_unpad] raises when its range reaches beyond the start of
    the data. *)
Lemma check_padding_beyond (data : list byte) (b : byte) (range : list nat) :
  Exists (fun i => (length data < i + 1)%nat) range ->
  exists e, check_padding data b range = Raise e.
Proof.
  induction range as [|i range IH]; intros Hex.
  - by apply Exists_nil in Hex.
  - cbn [check_padding]. unfold mbind, result_bind.
    destruct (index_from_end data (i + 1)) as [x|e] eqn:E; [|by exists e].
    destruct (Byte.eqb x b); [|by eexists].
    apply Exists_cons in Hex as [Hi|Hex]; [|by apply IH].
    unfold index_from_end in E.
    destruct (Nat.leb_spec (i + 1) (length data)); [lia|discriminate].
Qed.

Lemma _unpad_Ok_inv (data out : list byte) :
  _unpad data = Ok out ->
  exists b, last data = Some b /\ (1 <= Byte.to_nat b <= 16)%nat /\
    (Byte.to_nat b <= length data)%nat /\
    padding_bytes_ok data b (seq 0 (Byte.to_nat b)) = true /\
    out = take (length data - Byte.to_nat b) data.
Proof.
  intros E.
  destruct (last data) as [b|] eqn:Hlast.
  2:{ apply last_None in Hlast. subst data. discriminate. }
  exists b. split; [done|].
  destruct (Nat.le_gt_cases (Byte.to_nat b) (length data)) as [Hle|Hgt].
  - rewrite (_unpad_spec data b Hlast) in E by lia.
    destruct (Nat.ltb_spec 16 (Byte.to_nat b)); [discriminate|].
    destruct (Nat.eqb_spec (Byte.to_nat b) 0); [discriminate|]. cbn [orb] in E.
    destruct (padding_bytes_ok _ _ _) eqn:Hok; [|discriminate].
    injection E as <-. repeat split; try done; lia.
  - exfalso. unfold _unpad in E.
    destruct (Nat.eqb_spec (length data) 0); [discriminate|].
    rewrite (last_index_from_end _ _ Hlast) in E. unfold mbind, result_bind in E.
    destruct ((16 <? Byte.to_nat b)%nat || (Byte.to_nat b =? 0)%nat); [discriminate|].
    destruct (check_padding_beyond data b (seq 0 (Byte.to_nat b))) as [e He].
    { apply Exists_exists. exists (length data). split; [|lia].
      apply elem_of_seq. lia. }
    rewrite He in E. discriminate.
Qed.

(** X1. PKCS#7 round trip and the shape of padded data: [_unpad] undoes
    [_pad] on every byte string, the padded data is a whole number of
    16-byte blocks, and between 1 and 16 bytes are added, a full block when
    the data is already aligned. *)
Theorem pad_unpad_roundtrip (data : list byte) :
  _unpad (_pad data) = Ok data /\
  (length (_pad data) mod 16 = 0)%nat /\
  (length data < length (_pad data) <= length data + 16)%nat /\
  length (_pad data) = (16 * (length data / 16 + 1))%nat /\
  take (length data) (_pad data) = data.
Proof.
  destruct (_pad_shape data) as (n & Hn & En & Epad & Hlen).
  destruct (_pad_length data) as (n' & Hn' & En' & Hlen' & Hmod).
  split; [apply _unpad_pad|]. split; [done|]. split; [lia|]. split; [done|].
  rewrite Epad. by rewrite take_app_length.
Qed.

(** X2. What [_unpad] accepts: whenever it returns, the data was the result
    followed by [n] bytes of value [n] for some [n] between 1 and 16, so it
    strips exactly a PKCS#7 padding and nothing else. *)
Theorem unpad_strips_only_padding (data out : list byte) :
  _unpad data = Ok out ->
  exists n, (1 <= n <= 16)%nat /\ data = out ++ replicate n (bN (N.of_nat n)) /\
            length data = (length out + n)%nat.
Proof.
  intros E. apply _unpad_Ok_inv in E as (b & Hlast & Hb & Hle & Hok & ->).
  exists (Byte.to_nat b).
  apply padding_bytes_ok_trailing in Hok; [|lia].
  assert (Eb : bN (N.of_nat (Byte.to_nat b)) = b).
  { rewrite Byte.to_nat_via_N, N2Nat.id. apply bN_to_N. }
  rewrite Eb. split; [lia|]. split.
  - rewrite <- (take_drop (length data - Byte.to_nat b) data) at 1. f_equal.
    symmetry. apply replicate_as_Forall. split; [rewrite length_drop; lia|done].
  - rewrite length_take. lia.
Qed.

Lemma unpad_strips_only_padding_witness :
  _unpad (bN 1 :: replicate 3 (bN 3)) = Ok [bN 1] /\
  exists n, (1 <= n <= 16)%nat /\
    bN 1 :: replicate 3 (bN 3) = [bN 1] ++ replicate n (bN (N.of_nat n)) /\
    length (bN 1 :: replicate 3 (bN 3)) = (length [bN 1] + n)%nat.
Proof.
  split; [reflexivity|].
  apply (unpad_strips_only_padding (bN 1 :: replicate 3 (bN 3)) [bN 1]). reflexivity.
Defined.

(** A byte string of equal bytes [b] that is shorter than the padding
    length: the loop passes every byte and then indexes before the start. *)
Lemma check_padding_uniform (data : list byte) (b : byte) (m k : nat) :
  Forall (eq b) data -> (k <= length data < k + m)%nat ->
  check_padding data b (seq k m) = Raise IndexError.
Proof.
  intros Hall. revert k. induction m as [|m IH]; intros k Hk; [lia|].
  cbn [seq check_padding]. unfold index_from_end.
  destruct (Nat.leb_spec (k + 1) (length data)) as [Hle|Hgt]; [|reflexivity].
  destruct (data !! (length data - (k + 1))%nat) as [x|] eqn:Ex.
  - cbn [mbind result_bind].
    rewrite <- (proj1 (Forall_lookup _ _) Hall _ _ Ex).
    assert (Byte.eqb b b = true) as -> by (by apply Byte.byte_dec_lb).
    apply IH. lia.
  - apply lookup_ge_None in Ex. lia.
Qed.

(** X3. An edge of [_unpad]: on non-empty data made of one byte value [b]
    between 2 and 16 that is shorter than [b] bytes, the comparison loop
    runs past the start of the data and [IndexError] escapes, not the
    [ValueError] of the function's docstring. *)
Theorem unpad_short_data_IndexError (data : list byte) (b : byte) :
  data <> [] -> Forall (eq b) data -> (length data < Byte.to_nat b <= 16)%nat ->
  _unpad data = Raise IndexError.
Proof.
  intros Hne Hall Hb.
  assert (Hlast : last data = Some b).
  { destruct (last data) as [x|] eqn:E.
    - rewrite last_lookup in E. by rewrite (proj1 (Forall_lookup _ _) Hall _ _ E).
    - by apply last_None in E. }
  unfold _unpad.
  destruct (Nat.eqb_spec (length data) 0) as [E0|_].
  { destruct data; [done|discriminate]. }
  rewrite (last_index_from_end _ _ Hlast). unfold mbind, result_bind.
  destruct (Nat.ltb_spec 16 (Byte.to_nat b)); [lia|].
  destruct (Nat.eqb_spec (Byte.to_nat b) 0); [lia|]. cbn [orb].
  rewrite check_padding_uniform; [reflexivity|done|lia].
Qed.

Lemma unpad_short_data_IndexError_witness :
  _unpad [bN 5; bN 5] = Raise IndexError.
Proof.
  apply (unpad_short_data_IndexError [bN 5; bN 5] (bN 5)).
  - discriminate.
  - repeat constructor.
  - vm_compute. lia.
Defined.

Lemma hex_value_not_space (c : ascii) (n : N) :
  hex_value c = Some n -> Py_ISSPACE c = false.
Proof.
  destruct c as [[] [] [] [] [] [] [] []]; vm_compute; congruence.
Qed.

Lemma fromhex_length (s : string) (bs : list byte) :
  fromhex s = Ok bs -> String.length s = (2 * length bs + whitespace s)%nat.
Proof.
  remember (String.length s) as n eqn:Hn. revert s bs Hn.
  induction n as [n IH] using lt_wf_ind. intros s bs Hn.
  destruct s as [|c s']; [by intros [= <-]|].
  cbn [fromhex whitespace]. destruct (Py_ISSPACE c) eqn:Hc.
  - intros E. apply (IH (String.length s')) in E; [|subst n; simpl; lia|done].
    subst n. simpl. lia.
  - destruct (hex_value c) as [hi|]; [|discriminate].
    destruct s' as [|d s'']; [discriminate|].
    destruct (hex_value d) as [lo|] eqn:Hd; [|discriminate].
    destruct (fromhex s'') as [bs'|] eqn:E; [|discriminate].
    cbn [mbind result_bind]. intros [= <-].
    apply (IH (String.length s'')) in E; [|subst n; simpl; lia|done].
    cbn [whitespace]. rewrite (hex_value_not_space _ _ Hd).
    subst n. simpl in *. lia.
Qed.

(** X7. What [EncryptionService.__init__] lets through: an accepted key
    text has 64 characters and parses as hexadecimal, but [bytes.fromhex]
    skips ASCII whitespace, so the key has 32 bytes only when the text holds
    no whitespace; each whitespace pair costs a byte. *)
Theorem EncryptionService_init_key_length (s : string) (self : EncryptionService) :
  EncryptionService_init s = Ok self ->
  String.length s = 64%nat /\ fromhex s = Ok (key self) /\
  (2 * length (key self) + whitespace s = 64)%nat /\
  (length (key self) = 32%nat <-> whitespace s = 0%nat).
Proof.
  unfold EncryptionService_init.
  destruct (Nat.eqb_spec (String.length s) 64) as [Hlen|]; [|discriminate].
  cbn [negb]. destruct (fromhex s) as [k|] eqn:E; [|discriminate].
  intros [= <-]. cbn [key]. apply fromhex_length in E.
  repeat split; try done; lia.
Qed.

Lemma EncryptionService_init_key_length_witness :
  EncryptionService_init key_with_spaces = Ok {| key := zeros 24 |} /\
  String.length key_with_spaces = 64%nat /\
  (2 * length (zeros 24) + whitespace key_with_spaces = 64)%nat.
Proof.
  split; [reflexivity|].
  destruct (EncryptionService_init_key_length key_with_spaces {| key := zeros 24 |}
              eq_refl) as (H1 & _ & H3 & _).
  exact (conj H1 H3).
Defined.

(** X8. The settings validator and the service constructor agree: a key
    text passes [validate_encryption_key] exactly when
    [EncryptionService.__init__] accepts it, the validator returns it
    unchanged, and both accept the hexadecimal text of every 32-byte key,
    the constructor recovering the key. *)
Theorem validate_encryption_key_agrees :
  (forall v, validate_encryption_key v = inr v <->
             exists self, EncryptionService_init v = Ok self) /\
  (forall v v', validate_encryption_key v = inr v' -> v' = v) /\
  (forall k, length k = 32%nat ->
     validate_encryption_key (hex k) = inr (hex k) /\
     EncryptionService_init (hex k) = Ok {| key := k |}).
Proof.
  split; [|split].
  - intros v. unfold validate_encryption_key, EncryptionService_init.
    destruct (negb (String.length v =? 64)%nat).
    + split; [discriminate|]. intros [self E]. discriminate.
    + destruct (fromhex v).
      * split; [by eexists|done].
      * split; [discriminate|]. intros [self E]. discriminate.
  - intros v v'. unfold validate_encryption_key.
    destruct (negb (String.length v =? 64)%nat); [discriminate|].
    destruct (fromhex v); [by intros [= <-]|discriminate].
  - intros k Hk. unfold validate_encryption_key, EncryptionService_init.
    rewrite length_hex, Hk, fromhex_hex. by split.
Qed.

Section MoreEncryptionFacts.
Context `{CryptoBackend}.

Lemma length_cbc_encrypt_blocks (key prev : list byte) (ps : list (list byte)) :
  length (cbc_encrypt_blocks key prev ps) = length ps.
Proof. revert prev. induction ps as [|p ps IH]; intros prev; simpl; [done|by rewrite IH]. Qed.

Lemma length_cbc_encrypt (key iv data ct : list byte) :
  length iv = 16%nat -> cbc_encrypt key iv data = Ok ct -> length ct = length data.
Proof.
  intros Hiv. unfold cbc_encrypt.
  destruct (aes_key_size_ok key) eqn:Hkey; [|discriminate]. cbn [negb].
  destruct (Nat.eqb_spec (length data mod 16) 0) as [Hmod|]; [|discriminate].
  cbn [negb]. intros [= <-].
  pose proof (blocks_block16 data Hmod) as Hps.
  rewrite length_concat_block16 by (by apply cbc_encrypt_blocks_block16).
  rewrite length_cbc_encrypt_blocks.
  rewrite <- (length_concat_block16 _ Hps). by rewrite concat_blocks.
Qed.

(** X6. The shape of a ciphertext: whenever [encrypt_token] returns, the
    result is the lowercase hexadecimal text of whole 16-byte blocks, one
    block more than the UTF-8 encoding of the token fills; its length in
    characters is 32 times that number of blocks. *)
Theorem encrypt_token_ciphertext_shape (self : EncryptionService) (token : ustr)
    (iv ct : string) :
  encrypt_token self token iv = Ok ct ->
  exists data encrypted,
    encode token = Ok data /\ ct = hex encrypted /\ fromhex ct = Ok encrypted /\
    length encrypted = (16 * (length data / 16 + 1))%nat /\
    String.length ct = (32 * (length data / 16 + 1))%nat.
Proof.
  unfold encrypt_token.
  destruct (fromhex iv) as [iv_bytes|]; [|discriminate].
  destruct (Nat.eqb_spec (length iv_bytes) 16) as [Hiv|]; [|discriminate]. cbn [negb].
  destruct (negb (aes_key_size_ok (key self))); [discriminate|].
  destruct (encode token) as [data|]; [|discriminate]. cbn [mbind result_bind].
  destruct (cbc_encrypt (key self) iv_bytes (_pad data)) as [encrypted|] eqn:E;
    [|discriminate].
  cbn [mbind result_bind]. intros [= <-].
  apply length_cbc_encrypt in E; [|done].
  destruct (_pad_shape data) as (_ & _ & _ & _ & Hlen).
  exists data, encrypted. rewrite fromhex_hex, length_hex. repeat split; lia.
Qed.

(** X5. The IV that the vault draws: for every random source
    [generate_iv] yields 32 hexadecimal characters that [encrypt_token]
    accepts, and a token that is text, encrypted under a key of a size that
    AES accepts with that IV, decrypts to itself. *)
Theorem encrypt_with_generated_iv (self : EncryptionService) (token : ustr)
    (rand : nat -> byte) :
  aes_key_size_ok (key self) = true -> is_text token ->
  String.length (generate_iv rand) = 32%nat /\
  exists ct, encrypt_token self token (generate_iv rand) = Ok ct /\
             decrypt_token self ct (generate_iv rand) = Ok token.
Proof.
  intros Hkey Htext. unfold generate_iv, token_hex.
  split; [by rewrite length_hex, length_map, length_seq|].
  destruct (encode_is_text token Htext) as [data Hdata].
  apply (decrypt_encrypt_token self token _ (map rand (seq 0 16)) data);
    [done|apply fromhex_hex|by rewrite length_map, length_seq|done|].
  by apply decode_encode.
Qed.

(** X4. The errors of [decrypt_token]. Whatever the ciphertext, the IV and
    the key, a failure is one of seven [ValueError]s (bad hexadecimal text,
    an IV that is not 16 bytes, a key size that AES rejects, a ciphertext
    that is not whole blocks, empty data, a bad padding length, bad padding
    bytes) or [UnicodeDecodeError]; the [IndexError] that [_unpad] can
    raise on short data never occurs, since decrypted data comes in whole
    blocks. *)
Theorem decrypt_token_raises_only (self : EncryptionService)
    (encrypted_token iv : string) (e : exn) :
  decrypt_token self encrypted_token iv = Raise e ->
  e = UnicodeDecodeError \/
  exists why, e = ValueError why /\
    In why [TokenOrIvNotHex; IvNot16Bytes; InvalidKeySize; NotBlockMultiple;
            CannotUnpadEmpty; InvalidPaddingLength; InvalidPaddingBytes].
Proof.
  unfold decrypt_token.
  destruct (fromhex iv) as [iv_bytes|]; cbn [mbind result_bind];
    [|intros [= <-]; right; eexists; split; [reflexivity|simpl; tauto]].
  destruct (fromhex encrypted_token) as [ct|]; cbn [mbind result_bind];
    [|intros [= <-]; right; eexists; split; [reflexivity|simpl; tauto]].
  destruct (Nat.eqb_spec (length iv_bytes) 16) as [Hiv|]; cbn [negb];
    [|intros [= <-]; right; eexists; split; [reflexivity|simpl; tauto]].
  destruct (cbc_decrypt (key self) iv_bytes ct) as [d|e'] eqn:Ed; cbn [mbind result_bind].
  2:{ intros [= <-]. right. unfold cbc_decrypt in Ed.
      destruct (negb (aes_key_size_ok _));
        [injection Ed as <-; eexists; split; [reflexivity|simpl; tauto]|].
      destruct (negb (_ =? _)%nat); [|discriminate].
      injection Ed as <-. eexists; split; [reflexivity|simpl; tauto]. }
  apply cbc_decrypt_whole_blocks in Ed; [|done].
  destruct (_unpad d) as [u|e'] eqn:Eu; cbn [mbind result_bind].
  { intros Hd. left. by apply decode_raises in Hd. }
  intros [= <-]. right.
  destruct (last d) as [b|] eqn:Hlast.
  - assert (0 < length d)%nat by (destruct d; [discriminate|simpl; lia]).
    assert (16 <= length d)%nat.
    { pose proof (Nat.div_mod_eq (length d) 16). lia. }
    rewrite (_unpad_spec d b Hlast) in Eu by lia.
    destruct (_ || _); [injection Eu as <-; eexists; split; [reflexivity|simpl; tauto]|].
    destruct (padding_bytes_ok _ _ _); [discriminate|].
    injection Eu as <-. eexists; split; [reflexivity|simpl; tauto].
  - apply last_None in Hlast. subst d. injection Eu as <-.
    eexists; split; [reflexivity|simpl; tauto].
Qed.
End MoreEncryptionFacts.

Lemma encrypt_token_ciphertext_shape_witness :
  @encrypt_token xor_backend key32 rt_123 iv0 = Ok "72742d3132330a0a0a0a0a0a0a0a0a0a" /\
  exists data encrypted,
    encode rt_123 = Ok data /\
    "72742d3132330a0a0a0a0a0a0a0a0a0a" = hex encrypted /\
    fromhex "72742d3132330a0a0a0a0a0a0a0a0a0a" = Ok encrypted /\
    length encrypted = (16 * (length data / 16 + 1))%nat /\
    String.length "72742d3132330a0a0a0a0a0a0a0a0a0a" = (32 * (length data / 16 + 1))%nat.
Proof.
  split; [reflexivity|].
  apply (@encrypt_token_ciphertext_shape xor_backend key32 rt_123 iv0).
  reflexivity.
Defined.

Lemma encrypt_with_generated_iv_witness :
  String.length (generate_iv (rand env2)) = 32%nat /\
  exists ct, @encrypt_token xor_backend key32 rt_123 (generate_iv (rand env2)) = Ok ct /\
             @decrypt_token xor_backend key32 ct (generate_iv (rand env2)) = Ok rt_123.
Proof.
  apply (@encrypt_with_generated_iv xor_backend key32 rt_123 (rand env2)).
  - reflexivity.
  - unfold is_text, rt_123. simpl. repeat constructor.
Defined.

Lemma decrypt_token_raises_only_witness :
  ValueError NotBlockMultiple = UnicodeDecodeError \/
  exists why, ValueError NotBlockMultiple = ValueError why /\
    In why [TokenOrIvNotHex; IvNot16Bytes; InvalidKeySize; NotBlockMultiple;
            CannotUnpadEmpty; InvalidPaddingLength; InvalidPaddingBytes].
Proof.
  apply (@decrypt_token_raises_only xor_backend key32 "00" iv0). reflexivity.
Defined.

(** ** The vault: storing, reading back, deleting *)

Lemma utf8_encode_char_Ok (c : N) (bs : list byte) :
  utf8_encode_char c = Ok bs -> is_scalar c = true.
Proof.
  unfold utf8_encode_char, is_scalar, is_surrogate.
  destruct (N.ltb_spec c 0x80).
  { intros _. decide_tests. reflexivity. }
  destruct (N.ltb_spec c 0x800).
  { intros _. decide_tests. reflexivity. }
  destruct (N.ltb_spec c 0x10000).
  { destruct ((55296 <=? c)%N && (c <=? 57343)%N) eqn:Es; [discriminate|].
    intros _. rewrite (proj2 (N.ltb_lt c 0x110000)) by lia. reflexivity. }
  destruct (N.ltb_spec c 0x110000); [|discriminate].
  intros _. decide_tests. reflexivity.
Qed.

Lemma encode_Ok_is_text (s : ustr) (bs : list byte) : encode s = Ok bs -> is_text s.
Proof.
  revert bs. induction s as [|c s IH]; intros bs; [constructor|].
  cbn [encode]. destruct (utf8_encode_char c) as [b|] eqn:Ec; [|discriminate].
  cbn [mbind result_bind]. destruct (encode s) as [rest|]; [|discriminate].
  intros _. constructor; [by apply utf8_encode_char_Ok in Ec|by apply (IH rest)].
Qed.

Lemma encode_raises (s : ustr) (e : exn) : encode s = Raise e -> e = UnicodeEncodeError.
Proof.
  induction s as [|c s IH]; [discriminate|]. cbn [encode].
  destruct (utf8_encode_char c) as [b|e'] eqn:Ec; cbn [mbind result_bind].
  - destruct (encode s); cbn [mbind result_bind]; [discriminate|].
    intros [= <-]. by apply IH.
  - intros [= <-]. unfold utf8_encode_char in Ec.
    repeat match type of Ec with
           | (if ?c then _ else _) = _ => destruct c
           end; congruence.
Qed.

Section VaultFacts.
Context `{CryptoBackend} `{UuidLib} `{UpdateLib}.
Variable encryption : EncryptionService.

(** What a successful [encrypt_token] went through. *)
Lemma encrypt_token_Ok_inv (token : ustr) (iv ct : string) :
  encrypt_token encryption token iv = Ok ct ->
  exists iv_bytes data encrypted,
    fromhex iv = Ok iv_bytes /\ length iv_bytes = 16%nat /\
    aes_key_size_ok (key encryption) = true /\ encode token = Ok data /\
    cbc_encrypt (key encryption) iv_bytes (_pad data) = Ok encrypted /\
    ct = hex encrypted.
Proof.
  unfold encrypt_token.
  destruct (fromhex iv) as [iv_bytes|]; [|discriminate].
  destruct (Nat.eqb_spec (length iv_bytes) 16) as [Hiv|]; [|discriminate]. cbn [negb].
  destruct (aes_key_size_ok (key encryption)) eqn:Hkey; [|discriminate]. cbn [negb].
  destruct (encode token) as [data|]; [|discriminate]. cbn [mbind result_bind].
  destruct (cbc_encrypt _ _ _) as [encrypted|] eqn:E; [|discriminate].
  cbn [mbind result_bind]. intros [= <-]. by exists iv_bytes, data, encrypted.
Qed.

(** A ciphertext that [encrypt_token] made is not empty and decrypts to the
    token. *)
Lemma encrypt_token_Ok_decrypt (token : ustr) (iv ct : string) :
  encrypt_token encryption token iv = Ok ct ->
  ct <> "" /\ decrypt_token encryption ct iv = Ok token.
Proof.
  intros E.
  destruct (encrypt_token_Ok_inv _ _ _ E)
    as (iv_bytes & data & encrypted & Hiv & Hlen & Hkey & Hdata & Hct & ->).
  split.
  - apply length_cbc_encrypt in Hct; [|done].
    destruct (_pad_shape data) as (_ & _ & _ & _ & Hpad).
    intros E0. apply (f_equal String.length) in E0. rewrite length_hex in E0.
    simpl in E0. lia.
  - destruct (decrypt_encrypt_token encryption token iv iv_bytes data)
      as (ct' & E' & Hdec); try done.
    + apply decode_encode; [by apply (encode_Ok_is_text _ data)|done].
    + rewrite E in E'. by injection E' as <-.
Qed.

(** X9. Store, then retrieve. After a successful [store_token] the table
    has one more row, which holds a ciphertext and the IV under which it
    decrypts to the token that was stored; yet [retrieve_and_decrypt] of
    the new entry's id does not return it: the repository validates the
    loaded row against [TokenVaultEntry], whose field [metadata] the ORM
    class does not map, and pydantic's [ValidationError] is raised. Every
    other id is retrieved as before the store. *)
Theorem store_then_retrieve (tbl tbl1 : table) (env : Env) (user : uuid)
    (token : ustr) (t : TokenType) (sid : string) (md : option (gmap string jval))
    (entry : TokenVaultEntry.t) :
  TokenVaultService.store_token encryption tbl env user token t sid md
    = Ok (entry, tbl1) ->
  (exists row ct iv,
     tbl1 = tbl ++ [row] /\ AuthVault.id row = TokenVaultEntry.id entry /\
     AuthVault.encrypted_token row = Some ct /\ AuthVault.iv row = Some iv /\
     decrypt_token encryption ct iv = Ok token) /\
  TokenVaultService.retrieve_and_decrypt encryption tbl1 (TokenVaultEntry.id entry)
    = Raise PydanticValidationError /\
  forall other,
    other <> TokenVaultEntry.id entry ->
    TokenVaultService.retrieve_and_decrypt encryption tbl1 other
    = TokenVaultService.retrieve_and_decrypt encryption tbl other.
Proof.
  intros Estore.
  apply store_token_rows in Estore
    as (ct & h & Ect & _ & Hfree & _ & _ & -> & ->).
  cbn [TokenVaultEntry.id]. split; [|split].
  - eexists _, ct, (generate_iv (rand env)). repeat split.
    by apply encrypt_token_Ok_decrypt in Ect as [_ Hdec].
  - rewrite retrieve_and_decrypt_outcome, filter_app, (filter_id_free _ _ Hfree).
    rewrite filter_cons, decide_True by done. reflexivity.
  - intros other Hne. rewrite !retrieve_and_decrypt_outcome, filter_app.
    rewrite (filter_cons _ (AuthVault.mk _ _ _ _ _ _ _ _ _ _)).
    rewrite decide_False by (cbn; congruence). by rewrite filter_nil, app_nil_r.
Qed.

(** X10. When [store_token] succeeds and how it fails: it returns exactly
    when the token is text (encodable as UTF-8), the key has a size that AES
    accepts, the identifier drawn for the row is not taken, and that
    identifier and the user's are version-4 UUIDs; otherwise it raises
    [UnicodeEncodeError], the [ValueError] of the key size,
    [IntegrityError], or, for a UUID of another version, pydantic's
    [ValidationError] from the validation that ends [create], and nothing
    else. *)
Theorem store_token_succeeds_iff (tbl : table) (env : Env) (user : uuid)
    (token : ustr) (t : TokenType) (sid : string) (md : option (gmap string jval)) :
  ((exists entry tbl1,
      TokenVaultService.store_token encryption tbl env user token t sid md
        = Ok (entry, tbl1)) <->
   is_text token /\ aes_key_size_ok (key encryption) = true /\
   id_free (uuid4 env) tbl /\ is_UUID4 (uuid4 env) = true /\ is_UUID4 user = true) /\
  (forall e,
     TokenVaultService.store_token encryption tbl env user token t sid md = Raise e ->
     (e = UnicodeEncodeError /\ ~ is_text token) \/
     (e = ValueError InvalidKeySize /\ aes_key_size_ok (key encryption) = false) \/
     (e = IntegrityError /\ ~ id_free (uuid4 env) tbl) \/
     (e = PydanticValidationError /\
      is_UUID4 (uuid4 env) && is_UUID4 user = false)).
Proof.
  assert (Hiv : fromhex (generate_iv (rand env)) = Ok (map (rand env) (seq 0 16)))
    by apply fromhex_hex.
  assert (Hlen : length (map (rand env) (seq 0 16)) = 16%nat)
    by (by rewrite length_map, length_seq).
  split; [split|].
  - intros (entry & tbl1 & E).
    apply store_token_rows in E as (ct & h & Hct & _ & Hfree & Hid & Hu & _).
    destruct (encrypt_token_Ok_inv _ _ _ Hct) as (? & data & ? & _ & _ & Hkey & Hdata & _).
    repeat split; try done. by apply (encode_Ok_is_text _ data).
  - intros (Htext & Hkey & Hfree & Hid & Hu).
    destruct (encode_is_text token Htext) as [data Hdata].
    destruct (decrypt_encrypt_token encryption token _ _ data Hkey Hiv Hlen Hdata)
      as (ct & Hct & _); [by apply decode_encode|].
    unfold TokenVaultService.store_token, hash_token.
    rewrite Hct, Hdata. cbn [mbind result_bind].
    rewrite create_Ok by done. by eexists _, _.
  - intros e. unfold TokenVaultService.store_token.
    destruct (encrypt_token encryption token (generate_iv (rand env))) as [ct|e'] eqn:Ect;
      cbn [mbind result_bind].
    + destruct (encrypt_token_Ok_inv _ _ _ Ect) as (? & data & ? & _ & _ & _ & Hdata & _).
      unfold hash_token. rewrite Hdata. cbn [mbind result_bind].
      unfold TokenVaultRepository.create.
      destruct (existsb _ tbl) eqn:Ex.
      * intros [= <-]. right. right. left. split; [done|]. intros Hfree.
        rewrite (existsb_id_free _ _ Hfree) in Ex. discriminate.
      * unfold model_validate. cbn [AuthVault.id AuthVault.user_id].
        destruct (is_UUID4 (uuid4 env) && is_UUID4 user) eqn:Hv; [discriminate|].
        intros [= <-]. right. right. right. by split.
    + intros [= <-]. unfold encrypt_token in Ect. rewrite Hiv, Hlen in Ect.
      cbn [Nat.eqb negb] in Ect.
      destruct (aes_key_size_ok (key encryption)) eqn:Hkey; cbn [negb] in Ect.
      * destruct (encode token) as [data|e''] eqn:Hdata; cbn [mbind result_bind] in Ect.
        -- destruct (_pad_length data) as (n & _ & _ & _ & Hmod).
           destruct (cbc_encrypt_ok (key encryption) (map (rand env) (seq 0 16))
                       (_pad data) Hkey Hmod) as [c Hc].
           rewrite Hc in Ect. discriminate.
        -- injection Ect as <-. left. split; [by apply encode_raises in Hdata|].
           intros Htext. destruct (encode_is_text token Htext) as [? Hd]. congruence.
      * injection Ect as <-. right. left. by split.
Qed.

(** X11. Two entries for one session break the session lookup: after two
    successful [store_token] calls with the same session state and token
    type (for any users and tokens, on any table), [get_by_session_state]
    for that session raises [MultipleResultsFound], with the type given or
    not; with the same user and type, [get_by_user_id] does the same. *)
Theorem two_stores_break_lookup (tbl tbl1 tbl2 : table) (env env' : Env)
    (user user' : uuid) (token token' : ustr) (t : TokenType) (sid sid' : string)
    (md md' : option (gmap string jval)) (entry entry' : TokenVaultEntry.t) :
  TokenVaultService.store_token encryption tbl env user token t sid md
    = Ok (entry, tbl1) ->
  TokenVaultService.store_token encryption tbl1 env' user' token' t sid' md'
    = Ok (entry', tbl2) ->
  (sid' = sid ->
   TokenVaultService.get_by_session_state encryption tbl2 sid (Some t)
     = Raise MultipleResultsFound /\
   TokenVaultService.get_by_session_state encryption tbl2 sid None
     = Raise MultipleResultsFound) /\
  (user' = user ->
   TokenVaultService.get_by_user_id encryption tbl2 user (Some t)
     = Raise MultipleResultsFound /\
   TokenVaultService.get_by_user_id encryption tbl2 user None
     = Raise MultipleResultsFound).
Proof.
  intros E1 E2.
  apply store_token_rows in E1 as (ct & h & _ & _ & _ & _ & _ & -> & _).
  apply store_token_rows in E2 as (ct' & h' & _ & _ & _ & _ & _ & -> & _).
  set (row := AuthVault.mk (uuid4 env) user t (Some ct) _ (Some h) None sid _ None).
  set (row' := AuthVault.mk (uuid4 env') user' t (Some ct') _ (Some h') None sid' _ None).
  assert (Hwhere : forall o, o = Some t \/ o = None ->
            where_token_type o row = true /\ where_token_type o row' = true).
  { intros o [-> | ->]; cbn [where_token_type]; [|done].
    by rewrite !bool_decide_eq_true. }
  assert (Hseveral : forall (l : table) (a b : AuthVault.t),
            match l ++ [a] ++ [b] with
            | [] => Ok None
            | [_] => Raise PydanticValidationError
            | _ => Raise MultipleResultsFound
            end = Raise MultipleResultsFound
                    :> result (option (TokenVaultEntry.t * ustr))).
  { intros [|x [|y l]] a b; reflexivity. }
  split.
  - intros ->.
    assert (Hrows : forall o, o = Some t \/ o = None ->
              TokenVaultService.get_by_session_state encryption
                ((tbl ++ [row]) ++ [row']) sid o = Raise MultipleResultsFound).
    { intros o Ho. destruct (Hwhere o Ho) as [Hw Hw'].
      rewrite get_by_session_state_outcome.
      rewrite <- app_assoc, !filter_app.
      rewrite (filter_cons _ row), (filter_cons _ row'), !filter_nil.
      rewrite !decide_True by done.
      rewrite (filter_cons _ row), (filter_cons _ row'), !filter_nil.
      rewrite !decide_True by done. apply Hseveral. }
    split; apply Hrows; auto.
  - intros ->.
    assert (Hrows : forall o, o = Some t \/ o = None ->
              TokenVaultService.get_by_user_id encryption
                ((tbl ++ [row]) ++ [row']) user o = Raise MultipleResultsFound).
    { intros o Ho. destruct (Hwhere o Ho) as [Hw Hw'].
      rewrite get_by_user_id_outcome.
      rewrite <- app_assoc, !rows_of_user_app. unfold rows_of_user at 2 3.
      rewrite (filter_cons _ row), (filter_cons _ row'), !filter_nil.
      rewrite !decide_True by done.
      rewrite (filter_cons _ row), (filter_cons _ row'), !filter_nil.
      rewrite !decide_True by done. apply Hseveral. }
    split; apply Hrows; auto.
Qed.

(** X21. [store_token] does not persist the metadata. The entry that it
    returns carries the metadata given, but the row that it leaves in the
    table has the metadata column NULL, whatever was given: the keyword
    [metadata] of the [AuthVault] constructor names no mapped column. The
    other columns hold the id, the user, the type and the session state
    given. *)
Theorem store_token_drops_metadata (tbl tbl1 : table) (env : Env) (user : uuid)
    (token : ustr) (t : TokenType) (sid : string) (md : option (gmap string jval))
    (entry : TokenVaultEntry.t) :
  TokenVaultService.store_token encryption tbl env user token t sid md
    = Ok (entry, tbl1) ->
  TokenVaultEntry.metadata entry = md /\
  exists row,
    tbl1 = tbl ++ [row] /\ AuthVault.token_metadata row = None /\
    AuthVault.id row = TokenVaultEntry.id entry /\ AuthVault.user_id row = user /\
    AuthVault.token_type row = t /\ AuthVault.session_state_id row = sid /\
    AuthVault.created_at row = now env /\ AuthVault.updated_at row = None.
Proof.
  intros Estore.
  apply store_token_rows in Estore as (ct & h & _ & _ & _ & _ & _ & -> & ->).
  split; [reflexivity|]. eexists. by repeat split.
Qed.

(** X13. A refresh token can be upserted once. An [upsert_refresh_token]
    that returns found no refresh entry of the user and created one, whose
    id it returns; afterwards [get_by_user_id] for the user's refresh token
    raises pydantic's [ValidationError], and so every further upsert for
    that user raises: the entry is never overwritten. A sequence of upserts
    keeps at most one refresh row per user. *)
Theorem upsert_then_get_by_user_id (tbl tbl' : table) (env : Env) (user : uuid)
    (token : ustr) (sid : string) (md : option (gmap string jval)) (i : string) :
  TokenVaultService.upsert_refresh_token encryption tbl env user token sid md
    = Ok (i, tbl') ->
  i = uuid_str (uuid4 env) /\
  rows_of_user user (Some REFRESH) tbl = [] /\
  (exists row, tbl' = tbl ++ [row] /\ rows_of_user user (Some REFRESH) tbl' = [row] /\
               AuthVault.id row = uuid4 env) /\
  TokenVaultService.get_by_user_id encryption tbl' user (Some REFRESH)
    = Raise PydanticValidationError /\
  (forall env' token' sid' md',
     exists e,
       TokenVaultService.upsert_refresh_token encryption tbl' env' user token' sid' md'
         = Raise e) /\
  (forall requests,
     one_refresh_per_user tbl ->
     one_refresh_per_user (run_upserts encryption tbl' requests)).
Proof.
  intros E.
  pose proof (service_upsert_preserves _ _ _ _ _ _ _ _ _ E) as Hinv.
  apply service_upsert_Ok_inv in E as (Erows & -> & ct & h & _ & _ & ->).
  set (row := AuthVault.mk (uuid4 env) user REFRESH _ _ _ None sid (now env) None).
  assert (Erows' : rows_of_user user (Some REFRESH) (tbl ++ [row]) = [row]).
  { rewrite rows_of_user_app, Erows. by apply rows_of_user_singleton. }
  split; [done|]. split; [done|]. split; [by exists row|]. split; [|split].
  - by rewrite get_by_user_id_outcome, Erows'.
  - intros env' token' sid' md'. unfold TokenVaultService.upsert_refresh_token.
    destruct (encrypt_token _ _ _) as [ct'|e]; [|by exists e].
    destruct (hash_token _) as [h'|e]; [|by exists e].
    cbn [mbind result_bind]. exists PydanticValidationError.
    by apply (repository_upsert_existing _ _ _ _ _ _ _ _ _ row).
  - intros requests Hone. apply run_upserts_preserves. by apply Hinv.
Qed.

End VaultFacts.

Lemma store_then_retrieve_witness :
  exists entry tbl1,
    @TokenVaultService.store_token xor_backend key32 [] env1 user_7 rt_123 OFFLINE
      "s1" None = Ok (entry, tbl1) /\
    @TokenVaultService.retrieve_and_decrypt xor_backend canonical_uuid key32 tbl1
      (TokenVaultEntry.id entry) = Raise PydanticValidationError.
Proof.
  eexists _, _. split; [reflexivity|].
  exact (proj1 (proj2 (@store_then_retrieve xor_backend canonical_uuid key32 [] _ env1
                         user_7 rt_123 OFFLINE "s1" None _ eq_refl))).
Defined.

Lemma two_stores_break_lookup_witness :
  @TokenVaultService.get_by_session_state xor_backend key32 two_offline_entries "s1"
    (Some OFFLINE) = Raise MultipleResultsFound /\
  @TokenVaultService.get_by_session_state xor_backend key32 two_offline_entries "s1" None
    = Raise MultipleResultsFound.
Proof.
  refine (proj1 (@two_stores_break_lookup xor_backend key32 [] _ two_offline_entries
                   env1 env2 user_7 user_7 rt_123 rt_456 OFFLINE "s1" "s1" None None _ _
                   eq_refl eq_refl) eq_refl).
Defined.

Lemma store_token_drops_metadata_witness :
  exists entry tbl1,
    @TokenVaultService.store_token xor_backend key32 [] env1 user_7 rt_123 OFFLINE "s1"
      (Some (<["scope" := JStr "openid"]> ∅)) = Ok (entry, tbl1) /\
    TokenVaultEntry.metadata entry = Some (<["scope" := JStr "openid"]> ∅) /\
    (AuthVault.token_metadata <$> tbl1) = [None].
Proof.
  eexists _, _. split; [reflexivity|].
  split; [|reflexivity].
  exact (proj1 (@store_token_drops_metadata xor_backend key32 [] _ env1 user_7 rt_123
                  OFFLINE "s1" (Some (<["scope" := JStr "openid"]> ∅)) _ eq_refl)).
Defined.

Lemma upsert_then_get_by_user_id_witness :
  @TokenVaultService.get_by_user_id xor_backend key32
    (table_after [] (@TokenVaultService.upsert_refresh_token xor_backend canonical_uuid
                       update_unreached key32 [] env1 user_7 rt_123 "s1" None))
    user_7 (Some REFRESH) = Raise PydanticValidationError.
Proof.
  exact (proj1 (proj2 (proj2 (proj2
           (@upsert_then_get_by_user_id xor_backend canonical_uuid update_unreached key32 []
              (table_after [] (@TokenVaultService.upsert_refresh_token xor_backend
                                 canonical_uuid update_unreached key32 [] env1 user_7
                                 rt_123 "s1" None))
              env1 user_7 rt_123 "s1" None "00000000-0000-4000-8000-000000000001"
              eq_refl))))).
Defined.

(** ** Deleting *)

Lemma filter_filter_neq_eq (tbl : table) (token_id : uuid) :
  filter (fun r => AuthVault.id r = token_id)
    (filter (fun r => AuthVault.id r ≠ token_id) tbl) = [].
Proof.
  induction tbl as [|r tbl IH]; [reflexivity|].
  rewrite (filter_cons _ r). destruct (decide (AuthVault.id r ≠ token_id)) as [Hne|Heq].
  - rewrite filter_cons. by destruct (decide (AuthVault.id r = token_id)).
  - exact IH.
Qed.

Lemma filter_filter_neq_other (tbl : table) (token_id other : uuid) :
  other <> token_id ->
  filter (fun r => AuthVault.id r = other)
    (filter (fun r => AuthVault.id r ≠ token_id) tbl)
  = filter (fun r => AuthVault.id r = other) tbl.
Proof.
  intros Hne. induction tbl as [|r tbl IH]; [reflexivity|].
  rewrite (filter_cons _ r). destruct (decide (AuthVault.id r ≠ token_id)) as [Hr|Hr].
  - rewrite !(filter_cons _ r). destruct (decide (AuthVault.id r = other)); by rewrite IH.
  - rewrite IH, (filter_cons _ r).
    destruct (decide (AuthVault.id r = other)); [|done].
    exfalso. apply Hr. congruence.
Qed.

(** X12. [delete_token] removes exactly the rows of the given id: it
    answers true exactly when such a row existed, afterwards [get_by_id] of
    that id finds nothing, every other id is looked up as before, no other
    row is lost, and deleting again answers false and changes nothing. *)
Theorem delete_token_removes_id (tbl : table) (token_id : uuid) :
  let deleted := fst (TokenVaultService.delete_token tbl token_id) in
  let tbl' := snd (TokenVaultService.delete_token tbl token_id) in
  (deleted = true <-> exists r, r ∈ tbl /\ AuthVault.id r = token_id) /\
  TokenVaultRepository.get_by_id tbl' token_id = Ok None /\
  (forall other, other <> token_id ->
     TokenVaultRepository.get_by_id tbl' other = TokenVaultRepository.get_by_id tbl other) /\
  (forall r, r ∈ tbl' <-> r ∈ tbl /\ AuthVault.id r <> token_id) /\
  TokenVaultService.delete_token tbl' token_id = (false, tbl').
Proof.
  unfold TokenVaultService.delete_token, TokenVaultRepository.delete_by_id.
  cbn [fst snd]. set (kept := filter (fun r => AuthVault.id r ≠ token_id) tbl).
  assert (Hkept : forall r, r ∈ kept <-> r ∈ tbl /\ AuthVault.id r <> token_id).
  { intros r. unfold kept. rewrite list_elem_of_filter. tauto. }
  split; [|split; [|split; [|split]]].
  - rewrite Nat.ltb_lt. split.
    + intros Hlt. destruct (decide (Forall (fun r => AuthVault.id r ≠ token_id) tbl))
        as [Hall|Hex].
      * exfalso. unfold kept in Hlt.
        assert (filter (fun r => AuthVault.id r ≠ token_id) tbl = tbl) as E;
          [|rewrite E in Hlt; lia].
        clear Hlt Hkept kept. induction Hall as [|r tbl Hr _ IH]; [reflexivity|].
        rewrite filter_cons, decide_True by done. by rewrite IH.
      * apply not_Forall_Exists in Hex; [|intros r; apply _].
        apply Exists_exists in Hex as (r & Hr & Hid). exists r. split; [done|].
        by destruct (decide (AuthVault.id r = token_id)).
    + intros (r & Hr & Hid). unfold kept. clear Hkept kept.
      induction tbl as [|x tbl IH]; [by apply elem_of_nil in Hr|].
      pose proof (length_filter (fun r => AuthVault.id r ≠ token_id) tbl) as Hle.
      rewrite filter_cons. apply elem_of_cons in Hr as [<-|Hr].
      * rewrite decide_False by (intros Hne; by apply Hne). simpl. lia.
      * specialize (IH Hr). destruct (decide (AuthVault.id x ≠ token_id)); simpl; lia.
  - rewrite get_by_id_rows. unfold kept. by rewrite filter_filter_neq_eq.
  - intros other Hne. rewrite !get_by_id_rows. unfold kept.
    by rewrite filter_filter_neq_other.
  - exact Hkept.
  - assert (E : filter (fun r => AuthVault.id r ≠ token_id) kept = kept).
    { unfold kept. clear Hkept kept. induction tbl as [|x tbl IH]; [reflexivity|].
      rewrite (filter_cons _ x). destruct (decide (AuthVault.id x ≠ token_id)); [|done].
      rewrite filter_cons, decide_True by done. by rewrite IH. }
    rewrite E. by rewrite Nat.ltb_irrefl.
Qed.

(** ** Shared tokens *)

Lemma filter_two_positions {A} (P : A -> Prop) `{!forall x, Decision (P x)}
    (l : list A) (i j : nat) (a b : A) :
  (i < j)%nat -> l !! i = Some a -> l !! j = Some b -> P a -> P b ->
  (2 <= length (filter P l))%nat.
Proof.
  intros Hij Hi Hj Pa Pb.
  assert (Hb : drop (S i) l !! (j - S i)%nat = Some b).
  { rewrite lookup_drop. rewrite <- Hj. f_equal. lia. }
  assert (Hd : (1 <= length (filter P (drop (S i) l)))%nat).
  { rewrite <- (take_drop_middle _ _ b Hb), filter_app, filter_cons, decide_True by done.
    rewrite length_app. simpl. lia. }
  rewrite <- (take_drop_middle l i a Hi), filter_app, filter_cons, decide_True by done.
  rewrite length_app. simpl. lia.
Qed.

Lemma validate_all_outcome (rows : table) :
  TokenVaultRepository.validate_all rows
  = match rows with [] => Ok [] | _ => Raise PydanticValidationError end.
Proof. by destruct rows. Qed.

(** X14. What [check_shared_token] answers about a token hash [h], a
    session and an excluded id [x]. It never reports a shared session:
    when another entry has that session state the entries are validated
    as they are loaded and pydantic's [ValidationError] is raised, so a
    result, when there is one, has the session flag false. The hash flag
    is false when no other entry has the hash and true when exactly one
    has; as soon as two other entries carry the hash the check raises
    [MultipleResultsFound] instead of answering true. *)
Theorem check_shared_token_answers (tbl : table) (h sid : string) (x : uuid) :
  let others := filter (fun r => AuthVault.token_hash r = Some h ∧ AuthVault.id r ≠ x) tbl in
  (forall i j a b,
     (i < j)%nat -> tbl !! i = Some a -> tbl !! j = Some b ->
     AuthVault.token_hash a = Some h -> AuthVault.token_hash b = Some h ->
     AuthVault.id a <> x -> AuthVault.id b <> x ->
     TokenVaultService.check_shared_token tbl h sid x = Raise MultipleResultsFound) /\
  ((length others <= 1)%nat ->
   (exists r, r ∈ tbl /\ AuthVault.session_state_id r = sid /\ AuthVault.id r <> x) ->
   TokenVaultService.check_shared_token tbl h sid x = Raise PydanticValidationError) /\
  ((length others <= 1)%nat ->
   (forall r, r ∈ tbl -> AuthVault.session_state_id r = sid -> AuthVault.id r = x) ->
   exists dup,
     TokenVaultService.check_shared_token tbl h sid x = Ok (dup, false) /\
     (dup = true <-> exists r, r ∈ tbl /\ AuthVault.token_hash r = Some h /\
                               AuthVault.id r <> x)) /\
  (forall dup shared,
     TokenVaultService.check_shared_token tbl h sid x = Ok (dup, shared) ->
     shared = false).
Proof.
  intros others. unfold TokenVaultService.check_shared_token,
    TokenVaultRepository.check_duplicate_token_hash,
    TokenVaultRepository.get_all_by_session_state_id. fold others.
  rewrite validate_all_outcome.
  set (sharing := filter (fun r => where_token_type None r = true)
                    (filter (fun r => TokenVaultRepository.where_id_not (Some x) r = true)
                       (filter (fun r => AuthVault.session_state_id r = sid) tbl))).
  assert (Hin : forall r, r ∈ others <->
            r ∈ tbl /\ AuthVault.token_hash r = Some h /\ AuthVault.id r <> x).
  { intros r. unfold others. rewrite list_elem_of_filter. tauto. }
  assert (Hsess : forall r, r ∈ sharing <->
            r ∈ tbl /\ AuthVault.session_state_id r = sid /\ AuthVault.id r <> x).
  { intros r. unfold sharing.
    rewrite !list_elem_of_filter. cbn [where_token_type TokenVaultRepository.where_id_not].
    rewrite negb_true_iff, N.eqb_neq. tauto. }
  split; [|split; [|split]].
  - intros i j a b Hij Hi Hj Ha Hb Hax Hbx.
    assert (Hlen : (2 <= length others)%nat)
      by (by apply (filter_two_positions _ tbl i j a b)).
    destruct others as [|r [|r' l]]; simpl in Hlen; try lia. reflexivity.
  - intros Hlen (r & Hr). apply Hsess in Hr.
    destruct sharing as [|s l]; [by apply elem_of_nil in Hr|].
    destruct others as [|o [|o' l']]; simpl in Hlen; try lia; reflexivity.
  - intros Hlen Hnone.
    assert (Es : sharing = []).
    { destruct sharing as [|s l]; [done|]. exfalso.
      assert (Hs : s ∈ s :: l) by apply list_elem_of_here.
      apply Hsess in Hs as (Hs & Hsid & Hx). by apply Hx, Hnone. }
    rewrite Es. destruct others as [|r [|r' l]] eqn:Eo; [| |simpl in Hlen; lia];
      cbn [scalar_one_or_none mbind result_bind length Nat.ltb Nat.leb];
      eexists; (split; [reflexivity|]).
    + split; [discriminate|]. intros (r & Hr). apply Hin in Hr.
      by apply elem_of_nil in Hr.
    + split; [|done]. intros _. exists r. apply Hin, list_elem_of_here.
  - intros dup shared.
    destruct (scalar_one_or_none others) as [found|]; [|discriminate].
    cbn [mbind result_bind]. destruct sharing; [|discriminate].
    cbn. by intros [= _ <-].
Qed.

(** ** The endpoints and the responses *)

Section MoreEndpointFacts.
Context `{CryptoBackend} `{UuidLib} `{UpdateLib} `{JwtLib}.
Variable keycloak : KeycloakService.
Variable state_token_secret : string.
Variable encryption : EncryptionService.
Variable describe : exn -> string.

Ltac flow_cases :=
  unfold run_request, mbind, flow_bind, external, lift, vault_read, vault_write,
    guard_not_none_3; cbn;
  repeat match goal with
         | |- context [match ?x with _ => _ end] =>
             lazymatch x with
             | context [match _ with _ => _ end] => fail
             | _ => destruct x; cbn
             end
         end.

(** X15. The three endpoints that are to store a token never do: for every
    provider, table and input, [make_new_refresh_token_id],
    [generate_offline_token] and [offline_token_callback] end in an
    exception, the request leaves the table as it was, and neither
    [store_token] nor [upsert_refresh_token] is ever called. *)
Theorem token_endpoints_never_store :
  (forall env token tbl, exists e calls,
     run_request (Endpoints.make_new_refresh_token_id keycloak encryption env token) tbl
       = (Raise e, tbl, calls) /\
     forallb (fun c => negb (is_vault_write c)) calls = true) /\
  (forall env token tbl, exists e calls,
     run_request (Endpoints.generate_offline_token keycloak encryption env token) tbl
       = (Raise e, tbl, calls) /\
     forallb (fun c => negb (is_vault_write c)) calls = true) /\
  (forall env code state error tbl, exists e calls,
     run_request (Endpoints.offline_token_callback keycloak state_token_secret encryption
                    env code state error) tbl
       = (Raise e, tbl, calls) /\
     forallb (fun c => negb (is_vault_write c)) calls = true).
Proof.
  split; [|split].
  - intros env token tbl. unfold Endpoints.make_new_refresh_token_id.
    flow_cases; eexists _, _; split; reflexivity.
  - intros env token tbl. unfold Endpoints.generate_offline_token.
    flow_cases; eexists _, _; split; reflexivity.
  - intros env code state error tbl. unfold Endpoints.offline_token_callback.
    flow_cases; eexists _, _; split; reflexivity.
Qed.

(** X16. The responses of [validate_token]: the request makes one call,
    the introspection, and leaves the table alone; the response is 200 with
    [valid = true] when the provider reports the token active, 401 with code
    [token_not_active] when it reports it inactive, and, when the provider
    answers with a status other than 200, an error with code
    [keycloak_error] under the provider's own status; a success response
    is given only for an active token. *)
Theorem validate_token_responses (token : string) (tbl : table) :
  exists outcome,
    run_request (Endpoints.validate_token keycloak token) tbl
      = (outcome, tbl, [call_introspect_token]) /\
    (forall info,
       Keycloak.introspect_token keycloak token = Ok info ->
       respond describe outcome =
         if TokenIntrospection.active info
         then Success 200 (ValidationResponse.mk true)
         else Failure 401
                (ErrorResponse.mk "Token is not active" "token_not_active" None)) /\
    (status_code (post_introspection keycloak token) <> 200%Z ->
     respond describe outcome =
       Failure (status_code (post_introspection keycloak token))
         (ErrorResponse.mk
            ("Token introspection failed: " +:+ text (post_introspection keycloak token))
            "keycloak_error" None)) /\
    (forall s data,
       respond describe outcome = Success s data ->
       exists info, Keycloak.introspect_token keycloak token = Ok info /\
                    TokenIntrospection.active info = true).
Proof.
  unfold run_request, Endpoints.validate_token, mbind, flow_bind, external, lift. cbn.
  destruct (Keycloak.introspect_token keycloak token) as [info|e] eqn:E.
  - unfold guard_condition. destruct (TokenIntrospection.active info) eqn:Ha; cbn.
    + eexists. split; [reflexivity|]. split; [|split].
      * intros info' [= <-]. by rewrite Ha.
      * intros Hs. unfold Keycloak.introspect_token, Keycloak.checked in E.
        destruct (Z.eqb_spec (status_code (post_introspection keycloak token)) 200);
          [done|discriminate].
      * intros s data _. by exists info.
    + eexists. split; [reflexivity|]. split; [|split].
      * intros info' [= <-]. by rewrite Ha.
      * intros Hs. unfold Keycloak.introspect_token, Keycloak.checked in E.
        destruct (Z.eqb_spec (status_code (post_introspection keycloak token)) 200);
          [done|discriminate].
      * intros s data. discriminate.
  - eexists. split; [reflexivity|]. split; [|split].
    + discriminate.
    + intros Hs. unfold Keycloak.introspect_token, Keycloak.checked in E.
      destruct (Z.eqb_spec (status_code (post_introspection keycloak token)) 200);
        [done|]. by injection E as <-.
    + intros s data. cbn [respond]. unfold exception_handler, auth_manager_error_handler,
        pydantic_validation_error_handler, generic_exception_handler.
      destruct (code e); [discriminate|]. destruct e; discriminate.
Qed.

(** X17. A stored token buys no access token. After a successful
    [store_token], [get_access_token] of the new entry's id fails in the
    repository's validation of the loaded row with pydantic's
    [ValidationError], which the application answers with 400 and code
    [validation_error]; this holds for every provider, which is not
    consulted. *)
Theorem get_access_token_after_store (tbl tbl1 : table) (env : Env) (user : uuid)
    (token : ustr) (t : TokenType) (sid : string) (md : option (gmap string jval))
    (entry : TokenVaultEntry.t) :
  TokenVaultService.store_token encryption tbl env user token t sid md
    = Ok (entry, tbl1) ->
  Endpoints.get_access_token keycloak encryption tbl1 (TokenVaultEntry.id entry)
    = Raise PydanticValidationError /\
  respond describe
    (Endpoints.get_access_token keycloak encryption tbl1 (TokenVaultEntry.id entry))
    = Failure 400 (ErrorResponse.mk "Validation error" "validation_error"
                     (Some (describe PydanticValidationError))).
Proof.
  intros Estore.
  apply store_token_rows in Estore as (ct & h & _ & _ & Hfree & _ & _ & -> & ->).
  cbn [TokenVaultEntry.id].
  assert (E : Endpoints.get_access_token keycloak encryption
                (tbl ++ [AuthVault.mk (uuid4 env) user t (Some ct)
                           (Some (generate_iv (rand env))) (Some h) None sid (now env)
                           None]) (uuid4 env)
              = Raise PydanticValidationError).
  { unfold Endpoints.get_access_token.
    rewrite retrieve_and_decrypt_outcome, filter_app, (filter_id_free _ _ Hfree).
    rewrite filter_cons, decide_True by done. reflexivity. }
  by rewrite E.
Qed.

(** X18. [get_access_token] never serves. For every provider, table and
    id the endpoint ends in an exception and the response is an error:
    404 with code [token_not_found] when no row has the id, and 400 with
    code [validation_error] when the row with the id is found, whatever it
    holds. *)
Theorem get_access_token_unserved (tbl : table) (id : uuid) :
  let outcome := Endpoints.get_access_token keycloak encryption tbl id in
  (Forall (fun r => AuthVault.id r <> id) tbl ->
   respond describe outcome
   = Failure 404
       (ErrorResponse.mk ("Token " +:+ uuid_str id +:+ " not found")
          "token_not_found" None)) /\
  (forall row,
     filter (fun r => AuthVault.id r = id) tbl = [row] ->
     respond describe outcome
     = Failure 400 (ErrorResponse.mk "Validation error" "validation_error"
                      (Some (describe PydanticValidationError)))) /\
  (exists e, outcome = Raise e) /\
  (exists status body, respond describe outcome = Failure status body).
Proof.
  intros outcome. subst outcome. unfold Endpoints.get_access_token.
  rewrite retrieve_and_decrypt_outcome. split; [|split; [|split]].
  - intros Hfree. by rewrite (filter_id_free _ _ Hfree).
  - by intros row ->.
  - destruct (filter _ tbl) as [|a [|b l]]; by eexists.
  - destruct (filter _ tbl) as [|a [|b l]]; by eexists _, _.
Qed.

(** X19. The responses of [offline_token_callback]: 400 with code
    [keycloak_error] and no call at all when the provider sent an [error]
    parameter; 400 with code [invalid_state_token] when the state token is
    rejected, the code not being exchanged; the provider's own status with
    code [keycloak_error] when the exchange fails; and, when the exchange
    succeeds, 500 with code [internal_error], nothing being stored. *)
Theorem offline_token_callback_responses (env : Env) (code state : string)
    (error : option string) (tbl : table) :
  let request :=
    run_request (Endpoints.offline_token_callback keycloak state_token_secret encryption
                   env code state error) tbl in
  let exchange :=
    post_token keycloak (authorization_code_grant code (redirect_uri keycloak)) in
  (forall err,
     truthy error = Some err ->
     request.2 = [] /\
     respond describe request.1.1
       = Failure 400 (ErrorResponse.mk ("Keycloak returned error: " +:+ err)
                        "keycloak_error" None)) /\
  (forall m,
     truthy error = None ->
     StateTokenService.parse_state_token state_token_secret (now env) state
       = Raise (InvalidStateTokenError m) ->
     request.2 = [call_parse_state_token] /\
     respond describe request.1.1
       = Failure 400 (ErrorResponse.mk m "invalid_state_token" None)) /\
  (forall p,
     truthy error = None ->
     StateTokenService.parse_state_token state_token_secret (now env) state = Ok p ->
     status_code exchange <> 200%Z ->
     request.2 = [call_parse_state_token; call_exchange_code_for_token] /\
     respond describe request.1.1
       = Failure (status_code exchange)
           (ErrorResponse.mk ("Code exchange failed: " +:+ text exchange)
              "keycloak_error" None)) /\
  (forall p r,
     truthy error = None ->
     StateTokenService.parse_state_token state_token_secret (now env) state = Ok p ->
     status_code exchange = 200%Z -> json exchange = Ok r ->
     request = (Raise the_TypeError, tbl,
                [call_parse_state_token; call_exchange_code_for_token]) /\
     respond describe request.1.1
       = Failure 500 (ErrorResponse.mk "Internal server error" "internal_error"
                        (Some (describe the_TypeError)))).
Proof.
  intros request exchange. subst request exchange.
  unfold run_request, Endpoints.offline_token_callback.
  split; [|split; [|split]].
  - intros err ->. by cbn.
  - intros m -> Hparse. unfold mbind, flow_bind, external, lift. cbn.
    rewrite Hparse. by cbn.
  - intros p -> Hparse Hs. unfold mbind, flow_bind, external, lift. cbn.
    rewrite Hparse. unfold Keycloak.exchange_code_for_token, Keycloak.checked.
    destruct (Z.eqb_spec
                (status_code (post_token keycloak
                   (authorization_code_grant code (redirect_uri keycloak)))) 200);
      [done|]. by cbn.
  - intros p r -> Hparse Hs Hr. unfold mbind, flow_bind, external, lift. cbn.
    rewrite Hparse. unfold Keycloak.exchange_code_for_token, Keycloak.checked.
    rewrite Hs, Hr. by cbn.
Qed.

(** X20. A state token whose [user_id] or [session_state_id] claim is
    present but not a string is not reported as an invalid state token:
    building [StateTokenPayload] fails inside the [try], none of the
    [except] clauses matches, and pydantic's [ValidationError] leaves
    [parse_state_token]; it is no [AuthManagerError], and the application
    answers 400 with code [validation_error]. *)
Theorem parse_state_token_non_string_claim (now : Z) (token : string)
    (payload : gmap string jval) (u s : jval) :
  jwt_decode token state_token_secret now = JwtPayload payload ->
  payload !! "user_id" = Some u -> payload !! "session_state_id" = Some s ->
  is_JStr u && is_JStr s = false ->
  StateTokenService.parse_state_token state_token_secret now token
    = Raise PydanticValidationError /\
  is_auth_manager_error PydanticValidationError = false /\
  respond describe
    (StateTokenService.parse_state_token state_token_secret now token)
    = Failure 400 (ErrorResponse.mk "Validation error" "validation_error"
                     (Some (describe PydanticValidationError))).
Proof.
  intros Hdec Hu Hs Hstr.
  assert (E : StateTokenService.parse_state_token state_token_secret now token
              = Raise PydanticValidationError).
  { unfold StateTokenService.parse_state_token, StateTokenService.payload_to_state.
    rewrite Hdec, Hu, Hs. destruct u, s; try reflexivity; discriminate. }
  rewrite E. by repeat split.
Qed.

End MoreEndpointFacts.

Lemma get_access_token_after_store_witness :
  exists entry tbl1,
    @TokenVaultService.store_token xor_backend key32 [] env1 user_7 rt_123 OFFLINE
      "s1" None = Ok (entry, tbl1) /\
    respond (fun _ => "")
      (@Endpoints.get_access_token xor_backend canonical_uuid
         (provider (TokenIntrospection.mk true (Some user_7_text) (Some "s1"))
            (tokens_with (Some rt_456)))
         key32 tbl1 (TokenVaultEntry.id entry))
    = Failure 400 (ErrorResponse.mk "Validation error" "validation_error" (Some "")).
Proof.
  eexists _, _. split; [reflexivity|].
  exact (proj2 (@get_access_token_after_store xor_backend canonical_uuid
                  (provider (TokenIntrospection.mk true (Some user_7_text) (Some "s1"))
                     (tokens_with (Some rt_456)))
                  key32 (fun _ => "") [] _ env1 user_7 rt_123 OFFLINE "s1" None _
                  eq_refl)).
Defined.

Lemma parse_state_token_non_string_claim_witness :
  @StateTokenService.parse_state_token
     (jwt_answering (JwtPayload (<["session_state_id" := JStr "s1"]>
                                   (<["user_id" := JNum 7]> ∅)))) "k" 500 "t"
    = Raise PydanticValidationError.
Proof.
  exact (proj1 (@parse_state_token_non_string_claim
                  (jwt_answering (JwtPayload (<["session_state_id" := JStr "s1"]>
                                                (<["user_id" := JNum 7]> ∅))))
                  "k" (fun _ => "") 500 "t" _ (JNum 7) (JStr "s1")
                  eq_refl eq_refl eq_refl eq_refl)).
Defined.
